(** * Bingo card generator: sampling, layout and text fitting

    A shallow embedding of [bingo_generator.py].  Python integers are [Z],
    Python floats are idealised as exact rationals [Q], strings are
    [string], lists are [list].  Exceptions are values of [exn] carried by
    the result type [res]; the canvas object that the renderer mutates is an
    explicit state threaded through a small state-and-error monad.

    Three collaborators live outside the program and are taken as they are
    documented:
    - [random.sample]: the positions it selects are an explicit argument
      ([picks]); its contract (as many positions as requested, pairwise
      distinct, all inside the population) is the predicate [sample_choice];
    - [textwrap.wrap] and [canvas.stringWidth]: variables of the rendering
      section. *)

From Stdlib Require Import ZArith QArith Qround List Sorted String Ascii Bool Lia Lqa.
From Stdlib Require Import DecimalString DecimalZ DecimalPos Permutation.
Import ListNotations.

Local Open Scope string_scope.
Local Open Scope list_scope.
Local Open Scope Z_scope.

(* ------------------------------------------------------------------ *)
(** ** Exceptions and results *)

Inductive exn : Type :=
| ValueError
| IndexError
| ZeroDivisionError
| SystemExit (code : Z).

Definition res (A : Type) : Type := (exn + A)%type.

Definition ret {A} (a : A) : res A := inr a.

Definition bind {A B} (m : res A) (k : A -> res B) : res B :=
  match m with
  | inl e => inl e
  | inr a => k a
  end.

Notation "x <- m ;; k" := (bind m (fun x => k))
  (at level 61, m at next level, right associativity).
Notation "' pat <- m ;; k" := (bind m (fun x => match x with pat => k end))
  (at level 61, pat pattern, m at next level, right associativity).

(* ------------------------------------------------------------------ *)
(** ** Python built-ins used by the program *)

(** [range(n)]: 0, 1, ..., n-1 (empty when [n <= 0]). *)
Definition range (n : Z) : list Z := map Z.of_nat (seq 0 (Z.to_nat n)).

(** [range(a, b)]: a, a+1, ..., b-1. *)
Definition range_from (a b : Z) : list Z := map (fun i => a + i) (range (b - a)).

(** [len(l)]. *)
Definition len {A} (l : list A) : Z := Z.of_nat (List.length l).

(** [l[i]]: a negative index counts from the end, an index outside
    [-len(l) .. len(l)-1] raises [IndexError]. *)
Definition getitem {A} (l : list A) (i : Z) : res A :=
  let j := if i <? 0 then len l + i else i in
  if j <? 0 then inl IndexError
  else match nth_error l (Z.to_nat j) with
       | Some a => inr a
       | None => inl IndexError
       end.

(** [str(n)] for an integer, as used by f-strings: the decimal digits of
    [n].  The interpreter refuses to format an integer of more than
    [sys.int_max_str_digits] digits and raises [ValueError]; [str] gives the
    digits of every integer, and the statements on the message of the pool
    check, which prints numbers computed from the arguments, are made for
    [printable] numbers. *)
Definition str (n : Z) : string := NilZero.string_of_int (Z.to_int n).

Definition int_max_str_digits : Z := 4300.

(** [n] has at most [int_max_str_digits] digits. *)
Definition printable (n : Z) : Prop := Z.abs n < 10 ^ int_max_str_digits.

(** [random.sample(population, k)].  [picks] are the positions the random
    source selects.  The call raises [ValueError] when [k] is negative or
    larger than the population. *)
Definition random_sample (picks : list nat) (population : list string) (k : Z)
  : res (list string) :=
  if (k <? 0) || (len population <? k) then inl ValueError
  else inr (map (fun i => nth i population EmptyString) picks).

(** The documented contract of [random.sample] on a population of [n]
    elements: [k] positions, without replacement, inside the population. *)
Definition sample_choice (n : nat) (k : Z) (picks : list nat) : Prop :=
  List.length picks = Z.to_nat k /\ NoDup picks /\ Forall (fun i => (i < n)%nat) picks.

(* ------------------------------------------------------------------ *)
(** ** Card sampler: [generate_card] *)

(** The test that guards the free space, written three times in the source
    ([generate_card], [_draw_card], [generate_pdf]). *)
Definition free_applies (use_free_space : bool) (rows cols : Z) : bool :=
  use_free_space && (rows mod 2 =? 1) && (cols mod 2 =? 1).

Definition is_free_cell (use_free_space : bool) (rows cols r c : Z) : bool :=
  use_free_space && (rows mod 2 =? 1) && (cols mod 2 =? 1)
  && (r =? rows / 2) && (c =? cols / 2).

Definition cells_needed (use_free_space : bool) (rows cols : Z) : Z :=
  if free_applies use_free_space rows cols then rows * cols - 1 else rows * cols.

Section Sampler.
Variable chosen : list string.
Variables rows cols : Z.
Variable use_free_space : bool.
Variable free_space_text : string.

(** Inner loop [for c in range(cols)], carrying [idx]; returns the row
    and the value of [idx] after it. *)
Fixpoint fill_row (r : Z) (cs : list Z) (idx : Z) : res (list string * Z) :=
  match cs with
  | [] => ret ([], idx)
  | c :: cs' =>
      if is_free_cell use_free_space rows cols r c then
        '(row, idx') <- fill_row r cs' idx ;;
        ret (free_space_text :: row, idx')
      else
        s <- getitem chosen idx ;;
        '(row, idx') <- fill_row r cs' (idx + 1) ;;
        ret (s :: row, idx')
  end.

(** Outer loop [for r in range(rows)]. *)
Fixpoint fill_rows (rs : list Z) (idx : Z) : res (list (list string) * Z) :=
  match rs with
  | [] => ret ([], idx)
  | r :: rs' =>
      '(row, idx') <- fill_row r (range cols) idx ;;
      '(card, idx'') <- fill_rows rs' idx' ;;
      ret (row :: card, idx'')
  end.
End Sampler.

Definition generate_card (picks : list nat) (items : list string)
    (rows cols : Z) (use_free_space : bool) (free_space_text : string)
  : res (list (list string)) :=
  chosen <- random_sample picks items (cells_needed use_free_space rows cols) ;;
  '(card, _) <- fill_rows chosen rows cols use_free_space free_space_text
                  (range rows) 0 ;;
  ret card.

(** [card[r][c]] as an optional value, for statements about cells. *)
Definition cell (card : list (list string)) (r c : Z) : option string :=
  match getitem card r with
  | inr row => match getitem row c with inr s => Some s | inl _ => None end
  | inl _ => None
  end.

(* ------------------------------------------------------------------ *)
(** ** Numbers of the renderer

    Floats are read as exact rationals.  [int(x)] truncates towards zero;
    [a / b] raises [ZeroDivisionError] on a zero divisor.  Where the program
    divides a float by an integer, the interpreter first converts the
    integer and raises [OverflowError] when it is beyond the range of a
    float; [truediv] does not raise it, and a statement on such a division
    is made for [float_convertible] divisors. *)

Definition py_int (x : Q) : Z :=
  if Qle_bool 0 x then Qfloor x else Qceiling x.

Definition truediv (a b : Q) : res Q :=
  if Qeq_bool b 0 then inl ZeroDivisionError else inr (a / b)%Q.

Definition Zq (n : Z) : Q := inject_Z n.

(** [n] converts to a float: every integer below [2 ^ 1023] in absolute
    value does. *)
Definition float_convertible (n : Z) : Prop := Z.abs n < 2 ^ 1023.

(** [a > b] on floats. *)
Definition Qgt_bool (a b : Q) : bool := negb (Qle_bool a b).

(** Configuration and layout constants.  [inch] is reportlab's 72 points and
    [LETTER] its 8.5 x 11 inch page. *)
Definition inch : Q := 72.
Definition PAGE_WIDTH : Q := (17 # 2) * inch.
Definition PAGE_HEIGHT : Q := 11 * inch.
Definition MARGIN : Q := (3 # 4) * inch.
Definition TITLE_FONT_SIZE : Z := 28.
Definition FOOTER_FONT_SIZE : Z := 10.
Definition CELL_FONT_SIZE : Z := 11.
Definition HEADER_GAP : Q := (7 # 20) * inch.
Definition FOOTER_GAP : Q := (3 # 10) * inch.

Definition GRID_LINE_COLOR : string := "#222222".
Definition FREE_SPACE_BG : string := "#FFF3CD".
Definition HEADER_COLOR : string := "#1A1A2E".
Definition CELL_TEXT_COLOR : string := "#1A1A2E".

(* ------------------------------------------------------------------ *)
(** ** The canvas

    The drawing calls the program issues are recorded in call order on the
    page in progress; [showPage] closes the page. *)

Inductive canvas_op : Type :=
| SetFont (name : string) (size : Z)
| SetFillColor (color : string)
| SetStrokeColor (color : string)
| SetLineWidth (width : Z)
| DrawCentredString (x y : Q) (text : string)
| Rect (x y w h : Q) (stroke fill : bool).

Record Canvas : Type := mkCanvas
  { filename : string;
    page : list canvas_op;
    pages : list (list canvas_op) }.

(** Code that draws: a state monad over the canvas, with exceptions. *)
Definition draw (A : Type) : Type := Canvas -> res (A * Canvas).

Definition dret {A} (a : A) : draw A := fun cv => inr (a, cv).

Definition dbind {A B} (m : draw A) (k : A -> draw B) : draw B :=
  fun cv => match m cv with
            | inl e => inl e
            | inr (a, cv') => k a cv'
            end.

Definition lift {A} (m : res A) : draw A :=
  fun cv => match m with
            | inl e => inl e
            | inr a => inr (a, cv)
            end.

Notation "x <~ m ;; k" := (dbind m (fun x => k))
  (at level 61, m at next level, right associativity).
Notation "m >> k" := (dbind m (fun _ => k))
  (at level 61, right associativity).

Definition emit (op : canvas_op) : draw unit :=
  fun cv => inr (tt, mkCanvas (filename cv) (page cv ++ [op]) (pages cv)).

Definition setFont (name : string) (size : Z) : draw unit := emit (SetFont name size).
Definition setFillColor (c : string) : draw unit := emit (SetFillColor c).
Definition setStrokeColor (c : string) : draw unit := emit (SetStrokeColor c).
Definition setLineWidth (w : Z) : draw unit := emit (SetLineWidth w).
Definition drawCentredString (x y : Q) (s : string) : draw unit :=
  emit (DrawCentredString x y s).
Definition rect (x y w h : Q) (stroke fill : bool) : draw unit :=
  emit (Rect x y w h stroke fill).

Definition showPage : draw unit :=
  fun cv => inr (tt, mkCanvas (filename cv) [] (pages cv ++ [page cv])).

(** [for a in l: body a]. *)
Fixpoint for_each {A} (l : list A) (body : A -> draw unit) : draw unit :=
  match l with
  | [] => dret tt
  | a :: l' => body a >> for_each l' body
  end.

(* ------------------------------------------------------------------ *)
(** ** Card renderer: [_draw_cell_text] and [_draw_card] *)

(** What a run leaves outside the process: the two output streams (one
    entry per [print]) and the documents written, newest first. *)
Record world : Type := mkWorld
  { stderr : list string;
    stdout : list string;
    files : list (string * list (list canvas_op)) }.

(** Page geometry of [_draw_card] (points, origin at the bottom left). *)
Definition usable_w : Q := PAGE_WIDTH - 2 * MARGIN.
Definition usable_h : Q := PAGE_HEIGHT - 2 * MARGIN.
Definition title_y : Q := PAGE_HEIGHT - MARGIN.
Definition footer_y : Q := MARGIN.
Definition grid_top : Q := title_y - Zq TITLE_FONT_SIZE - HEADER_GAP.
Definition grid_bottom : Q := footer_y + Zq FOOTER_FONT_SIZE + FOOTER_GAP.
Definition grid_height : Q := grid_top - grid_bottom.
Definition grid_width : Q := usable_w.
Definition grid_x : Q := MARGIN.
Definition grid_y : Q := grid_bottom.

(** [x = grid_x + c * cell_w] and [y = grid_y + (rows - 1 - r) * cell_h]. *)
Definition cell_x (cell_w : Q) (c : Z) : Q := grid_x + Zq c * cell_w.
Definition cell_y (cell_h : Q) (rows r : Z) : Q := grid_y + Zq (rows - 1 - r) * cell_h.

(** The rectangle [(x, y, cell_w, cell_h)] that [_draw_card] passes to
    [canvas.rect] for the cell [(r, c)], and the rectangles of a grid in
    drawing order. *)
Record rectangle : Type := mkRectangle
  { rect_x : Q; rect_y : Q; rect_w : Q; rect_h : Q }.

Definition cell_rect (rows cols r c : Z) : rectangle :=
  let cell_w := (grid_width / Zq cols)%Q in
  let cell_h := (grid_height / Zq rows)%Q in
  mkRectangle (cell_x cell_w c) (cell_y cell_h rows r) cell_w cell_h.

Definition cell_rects (rows cols : Z) : list rectangle :=
  flat_map (fun r => map (cell_rect rows cols r) (range cols)) (range rows).

Definition area (rc : rectangle) : Q := (rect_w rc * rect_h rc)%Q.

Definition Qsum (l : list Q) : Q := fold_right Qplus 0%Q l.

(** The point [(px, py)] lies in the rectangle, the left and bottom edges
    included and the right and top edges excluded. *)
Definition in_rect (px py : Q) (rc : rectangle) : Prop :=
  (rect_x rc <= px)%Q /\ (px < rect_x rc + rect_w rc)%Q
  /\ (rect_y rc <= py)%Q /\ (py < rect_y rc + rect_h rc)%Q.

(** What the size search leaves in the local variables [size], [wrapped],
    [line_height] and [total_text_h]. *)
Record fitted : Type := mkFitted
  { size : Z;
    wrapped : list string;
    line_height : Q;
    total_text_h : Q }.

Section Renderer.
(** [textwrap.wrap(text, width)] on a positive width, and
    [canvas.stringWidth(line, font_name, size)]. *)
Variable wrap : string -> Z -> list string.
Variable stringWidth : string -> string -> Z -> Q.

(** [textwrap.wrap] rejects a width that is not positive. *)
Definition textwrap_wrap (text : string) (width : Z) : res (list string) :=
  if width <=? 0 then inl ValueError else inr (wrap text width).

(** [max(int(max_w / (size * 0.5)), 8)]. *)
Definition wrap_width (max_w : Q) (size : Z) : res Z :=
  q <- truediv max_w (Zq size * (1 # 2)) ;;
  ret (Z.max (py_int q) 8).

(** The two tests of one loop iteration: [total_text_h <= max_h], then
    the scan that clears [fits] at the first line wider than [max_w]. *)
Definition fits_cell (font_name : string) (max_w max_h : Q) (f : fitted) : bool :=
  let fits := Qle_bool (total_text_h f) max_h in
  if fits then
    negb (existsb (fun line => Qgt_bool (stringWidth line font_name (size f)) max_w)
                  (wrapped f))
  else false.

(** Wrapping and line metrics at one size. *)
Definition layout_at (text : string) (max_w : Q) (size : Z) : res fitted :=
  width <- wrap_width max_w size ;;
  wrapped <- textwrap_wrap text width ;;
  let line_height := (Zq size * (6 # 5))%Q in
  let total_text_h := (Zq (len wrapped) * line_height)%Q in
  ret (mkFitted size wrapped line_height total_text_h).

(** [for size in range(CELL_FONT_SIZE, 5, -1): ... break]; [None] when the
    loop runs to its end without [break]. *)
Fixpoint fit_loop (text font_name : string) (max_w max_h : Q) (sizes : list Z)
  : draw (option fitted) :=
  match sizes with
  | [] => dret None
  | size :: sizes' =>
      setFont font_name size >>
      f <~ lift (layout_at text max_w size) ;;
      if fits_cell font_name max_w max_h f then dret (Some f)
      else fit_loop text font_name max_w max_h sizes'
  end.

(** [range(CELL_FONT_SIZE, 5, -1)]. *)
Definition candidate_sizes : list Z :=
  map (fun i => CELL_FONT_SIZE - i) (range (CELL_FONT_SIZE - 5)).

(** The size search with its [else] branch. *)
Definition text_fit (text font_name : string) (max_w max_h : Q) : draw fitted :=
  found <~ fit_loop text font_name max_w max_h candidate_sizes ;;
  match found with
  | Some f => dret f
  | None => lift (layout_at text max_w 6)
  end.

Definition _draw_cell_text (text : string) (x y w h : Q) (is_free : bool)
  : draw unit :=
  let padding := 4%Q in
  let max_w := (w - 2 * padding)%Q in
  let max_h := (h - 2 * padding)%Q in
  let font_name := if is_free then "Helvetica-Bold" else "Helvetica" in
  f <~ text_fit text font_name max_w max_h ;;
  let start_y :=
    (y + h / 2 + total_text_h f / 2 - line_height f
     + (line_height f - Zq (size f)) / 2)%Q in
  setFillColor CELL_TEXT_COLOR >>
  setFont font_name (size f) >>
  for_each (combine (range (len (wrapped f))) (wrapped f))
    (fun '(i, line) =>
       let line_y := (start_y - Zq i * line_height f)%Q in
       drawCentredString (x + w / 2)%Q line_y line).
(** Body of the two nested loops of [_draw_card] at cell [(r, c)]. *)
Definition draw_cell (card : list (list string)) (rows cols : Z)
    (use_free_space : bool) (cell_w cell_h : Q) (r c : Z) : draw unit :=
  let x := cell_x cell_w c in
  let y := cell_y cell_h rows r in
  let is_free := is_free_cell use_free_space rows cols r c in
  (if is_free then
     setFillColor FREE_SPACE_BG >>
     rect x y cell_w cell_h false true
   else dret tt) >>
  setStrokeColor GRID_LINE_COLOR >>
  setLineWidth 1 >>
  rect x y cell_w cell_h true false >>
  text <~ lift (row <- getitem card r ;; getitem row c) ;;
  _draw_cell_text text x y cell_w cell_h is_free.

Definition _draw_card (card : list (list string)) (card_number : Z)
    (title : string) (rows cols : Z) (use_free_space : bool)
    (free_space_text : string) : draw unit :=
  setFont "Helvetica-Bold" TITLE_FONT_SIZE >>
  setFillColor HEADER_COLOR >>
  drawCentredString (PAGE_WIDTH / 2) (title_y - Zq TITLE_FONT_SIZE) title >>
  setFont "Helvetica" FOOTER_FONT_SIZE >>
  setFillColor HEADER_COLOR >>
  drawCentredString (PAGE_WIDTH / 2) footer_y ("Card #" ++ str card_number)%string >>
  cell_w <~ lift (truediv grid_width (Zq cols)) ;;
  cell_h <~ lift (truediv grid_height (Zq rows)) ;;
  for_each (range rows) (fun r =>
    for_each (range cols) (fun c =>
      draw_cell card rows cols use_free_space cell_w cell_h r c)).

(* ---------------------------------------------------------------- *)
(** ** Document driver: [generate_pdf] *)

(** [c.save()]: a page still in progress is closed first. *)
Definition save (cv : Canvas) (w : world) : world :=
  let doc := match page cv with
             | [] => pages cv
             | _ :: _ => pages cv ++ [page cv]
             end in
  mkWorld (stderr w) (stdout w) ((filename cv, doc) :: files w).

(** Loop body of [generate_pdf] for card number [n]; [rng n] are the
    positions [random.sample] selects for that card. *)
Definition card_page (rng : Z -> list nat) (items : list string)
    (rows cols : Z) (title : string) (use_free_space : bool)
    (free_space_text : string) (n : Z) : draw unit :=
  card <~ lift (generate_card (rng n) items rows cols use_free_space
                  free_space_text) ;;
  _draw_card card n title rows cols use_free_space free_space_text >>
  showPage.

Definition insufficient_message (needed rows cols available : Z) : string :=
  ("Error: need at least " ++ str needed ++ " unique items to fill a "
   ++ str rows ++ "x" ++ str cols ++ " card, but only " ++ str available
   ++ " were provided.")%string.

Definition saved_message (num_cards : Z) (output : string) : string :=
  ("Saved " ++ str num_cards ++ " bingo card(s) to " ++ output)%string.

Definition generate_pdf (rng : Z -> list nat) (items : list string)
    (rows cols num_cards : Z) (title : string) (use_free_space : bool)
    (free_space_text output : string) (w : world) : res unit * world :=
  let needed := cells_needed use_free_space rows cols in
  if len items <? needed then
    (inl (SystemExit 1),
     mkWorld (stderr w ++ [insufficient_message needed rows cols (len items)])
             (stdout w) (files w))
  else
    let c := mkCanvas output [] [] in
    match for_each (range_from 1 (num_cards + 1))
            (card_page rng items rows cols title use_free_space free_space_text)
            c with
    | inl e => (inl e, w)
    | inr (_, c') =>
        let w' := save c' w in
        (inr tt,
         mkWorld (stderr w')
                 (stdout w' ++ [saved_message num_cards output])
                 (files w'))
    end.
End Renderer.

(* ------------------------------------------------------------------ *)
(** ** Concrete collaborators for examples

    [wrap_token] is [textwrap.wrap] on a text that is a single word (no
    white space, no hyphen): the word is cut into successive slices of
    [width] characters.  [helvetica_width] measures a line in thousandths of
    the font size: letters and the space carry the advance widths of the
    Helvetica metrics file, every other character is counted as 556 (the
    width of the digits).  The font name is not looked at, so a line in
    Helvetica-Bold is measured with the regular widths, and the result is
    exact where the library rounds.  They serve the examples only. *)

Fixpoint slices (fuel : nat) (width : nat) (s : string) : list string :=
  match fuel with
  | O => []
  | S fuel' =>
      match s with
      | EmptyString => []
      | _ =>
          if (String.length s <=? width)%nat then [s]
          else substring 0 width s
               :: slices fuel' width (substring width (String.length s - width) s)
      end
  end.

Definition wrap_token (text : string) (width : Z) : list string :=
  slices (String.length text) (Z.to_nat width) text.

Definition helvetica_char (ch : ascii) : Z :=
  match ch with
  | "W"%char => 944
  | "M"%char | "m"%char => 833
  | "G"%char | "O"%char | "Q"%char => 778
  | "C"%char | "D"%char | "H"%char | "N"%char | "R"%char | "U"%char
  | "w"%char => 722
  | "A"%char | "B"%char | "E"%char | "K"%char | "P"%char | "S"%char
  | "V"%char | "X"%char | "Y"%char => 667
  | "F"%char | "T"%char | "Z"%char => 611
  | "J"%char | "c"%char | "k"%char | "s"%char | "v"%char | "x"%char
  | "y"%char | "z"%char => 500
  | "r"%char => 333
  | "I"%char | "f"%char | "t"%char | " "%char => 278
  | "i"%char | "j"%char | "l"%char => 222
  | _ => 556
  end.

Fixpoint helvetica_units (s : string) : Z :=
  match s with
  | EmptyString => 0
  | String ch s' => helvetica_char ch + helvetica_units s'
  end.

Definition helvetica_width (line font_name : string) (size : Z) : Q :=
  (Zq (helvetica_units line) * Zq size / 1000)%Q.

(* ------------------------------------------------------------------ *)
(** ** Vocabulary of the statements *)

(** Whether the reserved center comes strictly before [(r, c)] in
    row-major order. *)
Definition center_before (rows cols : Z) (use_free_space : bool) (r c : Z) : bool :=
  free_applies use_free_space rows cols
  && ((rows / 2 <? r) || ((r =? rows / 2) && (cols / 2 <? c))).

(** Number of drawn items placed before [(r, c)]. *)
Definition offset (rows cols : Z) (use_free_space : bool) (r c : Z) : Z :=
  r * cols + c - (if center_before rows cols use_free_space r c then 1 else 0).

(** The grid in closed form: the free label at the free cell, and at every
    other cell the drawn item whose rank is the number of items before it. *)
Definition cell_text (chosen : list string) (rows cols : Z)
    (use_free_space : bool) (free_space_text : string) (r c : Z) : string :=
  if is_free_cell use_free_space rows cols r c then free_space_text
  else nth (Z.to_nat (offset rows cols use_free_space r c)) chosen EmptyString.

Definition card_of (chosen : list string) (rows cols : Z)
    (use_free_space : bool) (free_space_text : string) : list (list string) :=
  map (fun r => map (cell_text chosen rows cols use_free_space free_space_text r)
                    (range cols))
      (range rows).

(** [l[:m] + [x] + l[m:]]: the list [l] with [x] put at position [m]. *)
Definition insert_at {A} (m : nat) (x : A) (l : list A) : list A :=
  firstn m l ++ x :: skipn m l.

(** The items at the selected positions. *)
Definition sampled (picks : list nat) (items : list string) : list string :=
  map (fun i => nth i items EmptyString) picks.

(** Row-major position of the center cell. *)
Definition center_index (rows cols : Z) : nat :=
  Z.to_nat (rows / 2 * cols + cols / 2).

(** No two non-free cells of [card] hold the same string. *)
Definition distinct_cells (use_free_space : bool) (rows cols : Z)
    (card : list (list string)) : Prop :=
  forall r c r' c',
    0 <= r < rows -> 0 <= c < cols -> 0 <= r' < rows -> 0 <= c' < cols ->
    is_free_cell use_free_space rows cols r c = false ->
    is_free_cell use_free_space rows cols r' c' = false ->
    (r, c) <> (r', c') ->
    cell card r c <> cell card r' c'.

(** [appends m a ops]: from any canvas, [m] returns [a] without raising and
    leaves the canvas with [ops] added to the page in progress. *)
Definition appends {A} (m : draw A) (a : A) (ops : list canvas_op) : Prop :=
  forall cv, m cv = inr (a, mkCanvas (filename cv) (page cv ++ ops) (pages cv)).

(** The layout [f] meets the two requirements of the search: the block is
    not taller than [max_h] and no line is wider than [max_w]. *)
Definition Fits (stringWidth : string -> string -> Z -> Q)
    (font_name : string) (max_w max_h : Q) (f : fitted) : Prop :=
  (total_text_h f <= max_h)%Q
  /\ Forall (fun line => (stringWidth line font_name (size f) <= max_w)%Q)
            (wrapped f).

(** Whether the loop body accepts [s], as a boolean. *)
Definition fits_at (wrap : string -> Z -> list string)
    (stringWidth : string -> string -> Z -> Q)
    (text font_name : string) (max_w max_h : Q) (s : Z) : bool :=
  match layout_at wrap text max_w s with
  | inr f => fits_cell stringWidth font_name max_w max_h f
  | inl _ => false
  end.

(** What the loop leaves: the first size of the list that is accepted,
    with its layout, or [None] when no size is. *)
Definition first_fit (wrap : string -> Z -> list string)
    (stringWidth : string -> string -> Z -> Q)
    (text font_name : string) (max_w max_h : Q)
    (sizes : list Z) (found : option fitted) : Prop :=
  match found with
  | Some f =>
      exists before after,
        sizes = before ++ size f :: after
        /\ layout_at wrap text max_w (size f) = inr f
        /\ fits_cell stringWidth font_name max_w max_h f = true
        /\ Forall (fun s => fits_at wrap stringWidth text font_name max_w max_h s
                            = false) before
  | None =>
      Forall (fun s => fits_at wrap stringWidth text font_name max_w max_h s = false)
             sizes
  end.

(** The strings [_draw_cell_text] draws for a layout, and the font of a
    cell. *)
Definition text_ops (x y w h : Q) (f : fitted) : list canvas_op :=
  map (fun p => DrawCentredString (x + w / 2)%Q
                  (y + h / 2 + total_text_h f / 2 - line_height f
                   + (line_height f - Zq (size f)) / 2
                   - Zq (fst p) * line_height f)%Q (snd p))
      (combine (range (len (wrapped f))) (wrapped f)).

Definition cell_font (is_free : bool) : string :=
  if is_free then "Helvetica-Bold" else "Helvetica".

(** The drawing calls a piece of drawing code makes on a fresh page. *)
Definition ops_of (m : draw unit) : list canvas_op :=
  match m (mkCanvas EmptyString [] []) with
  | inr (_, cv) => page cv
  | inl _ => []
  end.

(** The calls that draw the title and the footer. *)
Definition title_ops (title : string) : list canvas_op :=
  [ SetFont "Helvetica-Bold" TITLE_FONT_SIZE;
    SetFillColor HEADER_COLOR;
    DrawCentredString (PAGE_WIDTH / 2) (title_y - Zq TITLE_FONT_SIZE) title ].

Definition footer_ops (card_number : Z) : list canvas_op :=
  [ SetFont "Helvetica" FOOTER_FONT_SIZE;
    SetFillColor HEADER_COLOR;
    DrawCentredString (PAGE_WIDTH / 2) footer_y ("Card #" ++ str card_number)%string ].

(** The grid-size invariant [_draw_card] assumes of its card. *)
Definition full_grid (rows cols : Z) (card : list (list string)) : Prop :=
  forall r c, 0 <= r < rows -> 0 <= c < cols -> exists s, cell card r c = Some s.

(** The card of page [n] and the drawing calls of that page. *)
Definition card_number_card (rng : Z -> list nat) (items : list string)
    (rows cols : Z) (use_free_space : bool) (free_space_text : string) (n : Z)
  : list (list string) :=
  card_of (sampled (rng n) items) rows cols use_free_space free_space_text.

Definition page_ops (wrap : string -> Z -> list string)
    (stringWidth : string -> string -> Z -> Q) (rng : Z -> list nat)
    (items : list string) (rows cols : Z) (title : string)
    (use_free_space : bool) (free_space_text : string) (n : Z) : list canvas_op :=
  ops_of (_draw_card wrap stringWidth
            (card_number_card rng items rows cols use_free_space free_space_text n)
            n title rows cols use_free_space free_space_text).

(* ------------------------------------------------------------------ *)
(** ** Further code and vocabulary *)

(* ------------------------------------------------------------------ *)
(** ** Item loader: [load_items]

    A text is a [string] whose characters are code points below 256. *)

(** The line boundaries of [str.splitlines]: LF, VT, FF, CR, FS, GS, RS and
    NEL. *)
Definition is_linebreak (c : ascii) : bool :=
  existsb (N.eqb (N_of_ascii c)) [10; 11; 12; 13; 28; 29; 30; 133]%N.

(** The white space of [str.strip]: TAB, the line boundaries, US, the space
    and the no-break space. *)
Definition is_space (c : ascii) : bool :=
  existsb (N.eqb (N_of_ascii c)) [9; 10; 11; 12; 13; 28; 29; 30; 31; 32; 133; 160]%N.

Definition LF : ascii := ascii_of_N 10.
Definition CR : ascii := ascii_of_N 13.

(** [text.splitlines()]: the lines without their boundaries; CR LF is one
    boundary, and a boundary at the very end opens no further line. *)
Fixpoint splitlines (text : string) : list string :=
  match text with
  | EmptyString => []
  | String c rest =>
      if is_linebreak c then
        EmptyString
        :: (if Ascii.eqb c CR then
              match rest with
              | String c' rest' =>
                  if Ascii.eqb c' LF then splitlines rest' else splitlines rest
              | EmptyString => splitlines rest
              end
            else splitlines rest)
      else
        match splitlines rest with
        | [] => [String c EmptyString]
        | line :: lines => String c line :: lines
        end
  end.

(** [s.lstrip()], [s.rstrip()] and [s.strip()]. *)
Fixpoint lstrip (s : string) : string :=
  match s with
  | EmptyString => EmptyString
  | String c s' => if is_space c then lstrip s' else s
  end.

Fixpoint rstrip (s : string) : string :=
  match s with
  | EmptyString => EmptyString
  | String c s' =>
      match rstrip s' with
      | EmptyString => if is_space c then EmptyString else String c EmptyString
      | kept => String c kept
      end
  end.

Definition strip (s : string) : string := rstrip (lstrip s).

(** [s.startswith("#")]. *)
Definition starts_with_hash (s : string) : bool :=
  match s with
  | String c _ => Ascii.eqb c "#"
  | EmptyString => false
  end.

(** Truth value of a string: it is not empty. *)
Definition nonempty (s : string) : bool :=
  match s with
  | EmptyString => false
  | String _ _ => true
  end.

(** The loop of [load_items] over the lines of the file. *)
Fixpoint collect_items (lines : list string) : list string :=
  match lines with
  | [] => []
  | line :: lines' =>
      let stripped := strip line in
      if nonempty stripped && negb (starts_with_hash stripped)
      then stripped :: collect_items lines'
      else collect_items lines'
  end.

(** Text mode reading translates CR LF and a lone CR to LF. *)
Fixpoint universal_newlines (raw : string) : string :=
  match raw with
  | EmptyString => EmptyString
  | String c rest =>
      if Ascii.eqb c CR then
        String LF
          (match rest with
           | String c' rest' =>
               if Ascii.eqb c' LF then universal_newlines rest'
               else universal_newlines rest
           | EmptyString => universal_newlines rest
           end)
      else String c (universal_newlines rest)
  end.

Definition file_not_found_message (filepath : string) : string :=
  ("Error: file not found: " ++ filepath)%string.

(** [load_items(filepath)].  [fs] gives the decoded content of the files
    that exist. *)
Definition load_items (fs : string -> option string) (filepath : string)
    (w : world) : res (list string) * world :=
  match fs filepath with
  | None =>
      (inl (SystemExit 1),
       mkWorld (stderr w ++ [file_not_found_message filepath]) (stdout w) (files w))
  | Some raw => (inr (collect_items (splitlines (universal_newlines raw))), w)
  end.

(* ------------------------------------------------------------------ *)
(** ** CLI entry point: [main] *)

(** The namespace [parser.parse_args()] returns. *)
Module Args.
Record t : Type := mk
  { items_file : string;
    rows : Z;
    cols : Z;
    cards : Z;
    title : string;
    free_space : bool;
    free_text : string;
    output : string }.
End Args.

(** [parser.error(message)]: the message goes to the error stream (after
    the usage line that argparse prints) and the process exits with
    status 2. *)
Definition parser_error (message : string) (w : world) : res unit * world :=
  (inl (SystemExit 2), mkWorld (stderr w ++ [message]) (stdout w) (files w)).

Definition main (wrap : string -> Z -> list string)
    (stringWidth : string -> string -> Z -> Q) (rng : Z -> list nat)
    (fs : string -> option string) (args : Args.t) (w : world)
  : res unit * world :=
  if (Args.rows args <? 1) || (Args.cols args <? 1) then
    parser_error "Rows and columns must be at least 1." w
  else if Args.cards args <? 1 then
    parser_error "Must generate at least 1 card." w
  else
    match load_items fs (Args.items_file args) w with
    | (inl e, w') => (inl e, w')
    | (inr items, w') =>
        generate_pdf wrap stringWidth rng items (Args.rows args) (Args.cols args)
          (Args.cards args) (Args.title args) (Args.free_space args)
          (Args.free_text args) (Args.output args) w'
    end.

(** Every character of [s] passes [p]. *)
Fixpoint string_forall (p : ascii -> bool) (s : string) : bool :=
  match s with
  | EmptyString => true
  | String c s' => p c && string_forall p s'
  end.

(** The last and the first character of a string. *)
Fixpoint last_char (s : string) : option ascii :=
  match s with
  | EmptyString => None
  | String c EmptyString => Some c
  | String _ s' => last_char s'
  end.

Definition first_char (s : string) : option ascii :=
  match s with
  | EmptyString => None
  | String c _ => Some c
  end.

(** An item as [load_items] returns it: not empty, no white space at
    either end, no leading [#], no line boundary inside. *)
Definition clean_item (s : string) : Prop :=
  (exists c, first_char s = Some c /\ is_space c = false /\ c <> "#"%char)
  /\ (exists c, last_char s = Some c /\ is_space c = false)
  /\ string_forall (fun c => negb (is_linebreak c)) s = true.

(** [sep.join(items)]. *)
Fixpoint join (sep : string) (items : list string) : string :=
  match items with
  | [] => EmptyString
  | [s] => s
  | s :: items' => (s ++ sep ++ join sep items')%string
  end.

(** Every item followed by the line ending [sep]. *)
Fixpoint unlines (sep : string) (items : list string) : string :=
  match items with
  | [] => EmptyString
  | s :: items' => (s ++ sep ++ unlines sep items')%string
  end.

(** The three line endings of text files: LF, CR LF and CR. *)
Definition line_endings : list string :=
  [String LF EmptyString; String CR (String LF EmptyString); String CR EmptyString].

(** The text holds no line boundary. *)
Definition no_linebreak (s : string) : Prop :=
  string_forall (fun c => negb (is_linebreak c)) s = true.

(** The text is empty or starts inside a line. *)
Definition starts_in_line (s : string) : Prop :=
  match s with
  | EmptyString => True
  | String c _ => is_linebreak c = false
  end.

(** A last line without ending: empty or one more clean item. *)
Definition open_line (t : string) : Prop := t = EmptyString \/ clean_item t.

(** A line that [load_items] skips: it holds no line boundary and, once
    stripped, is empty or starts with [#]. *)
Definition skipped_line (line : string) : Prop :=
  no_linebreak line
  /\ (strip line = EmptyString \/ starts_with_hash (strip line) = true).

(** A small item file: a comment, two items, a blank line, CR LF endings. *)
Definition example_file : string :=
  ("# party" ++ String CR (String LF EmptyString)
   ++ "  Touchdown " ++ String CR (String LF EmptyString)
   ++ String CR (String LF EmptyString)
   ++ "Field goal" ++ String CR (String LF EmptyString))%string.

Definition example_fs (filepath : string) : option string :=
  if String.eqb filepath "events.txt" then Some example_file else None.

Definition example_args : Args.t :=
  Args.mk "events.txt" 1 2 2 "BINGO" true "FREE" "bingo_cards.pdf".

(** Drawing code never renames the document. *)
Definition keeps_filename {A} (m : draw A) : Prop :=
  forall cv a cv', m cv = inr (a, cv') -> filename cv' = filename cv.

(** The rectangles drawn with the given [stroke] and [fill] flags, in
    drawing order. *)
Definition rects_with (stroke fill : bool) (ops : list canvas_op) : list rectangle :=
  flat_map (fun op => match op with
                      | Rect x y w h s f =>
                          if Bool.eqb s stroke && Bool.eqb f fill
                          then [mkRectangle x y w h] else []
                      | _ => []
                      end) ops.

(** The fonts set, in order. *)
Definition fonts_set (ops : list canvas_op) : list (string * Z) :=
  flat_map (fun op => match op with
                      | SetFont name size => [(name, size)]
                      | _ => []
                      end) ops.

(* ================================================================== *)
(** * Properties *)

Ltac Zify.zify_post_hook ::= Z.to_euclidean_division_equations.

(* ------------------------------------------------------------------ *)
(** ** Built-ins *)

Lemma getitem_nth_error {A} (l : list A) (i : Z) :
  0 <= i ->
  getitem l i = match nth_error l (Z.to_nat i) with
                | Some a => inr a
                | None => inl IndexError
                end.
Proof.
  intros Hi. unfold getitem.
  destruct (Z.ltb_spec i 0); [lia|].
  destruct (Z.ltb_spec i 0); [lia|]. reflexivity.
Qed.

Lemma getitem_in_range (l : list string) (i : Z) :
  0 <= i < len l ->
  getitem l i = inr (nth (Z.to_nat i) l EmptyString).
Proof.
  intros Hi. rewrite getitem_nth_error by lia.
  rewrite (nth_error_nth' l EmptyString); [reflexivity|].
  unfold len in Hi. lia.
Qed.

Lemma range_length (n : Z) : List.length (range n) = Z.to_nat n.
Proof. unfold range. now rewrite length_map, length_seq. Qed.

Lemma range_nth_error (n i : Z) :
  0 <= i < n -> nth_error (range n) (Z.to_nat i) = Some i.
Proof.
  intros Hi. unfold range.
  rewrite nth_error_map, nth_error_seq.
  destruct (Nat.ltb_spec (Z.to_nat i) (Z.to_nat n)); [|lia].
  simpl. f_equal. lia.
Qed.

Lemma in_range (n i : Z) : In i (range n) <-> 0 <= i < n.
Proof.
  unfold range. rewrite in_map_iff. split.
  - intros (k & <- & Hk). apply in_seq in Hk. lia.
  - intros Hi. exists (Z.to_nat i). split; [lia|]. apply in_seq. lia.
Qed.

(* ------------------------------------------------------------------ *)
(** ** The sampler in closed form *)

Section SamplerFacts.
Variable chosen : list string.
Variables rows cols : Z.
Variable use_free_space : bool.
Variable free_space_text : string.

Hypothesis rows_pos : 1 <= rows.
Hypothesis cols_pos : 1 <= cols.
Hypothesis chosen_len : len chosen = cells_needed use_free_space rows cols.

Ltac booleans :=
  unfold offset, center_before, is_free_cell, cells_needed, free_applies in *;
  repeat match goal with
         | |- context [?a =? ?b] => destruct (Z.eqb_spec a b)
         | |- context [?a <? ?b] => destruct (Z.ltb_spec a b)
         | H : context [?a =? ?b] |- _ => destruct (Z.eqb_spec a b)
         | H : context [?a <? ?b] |- _ => destruct (Z.ltb_spec a b)
         end;
  destruct use_free_space; simpl in *.

Lemma offset_free (r c : Z) :
  is_free_cell use_free_space rows cols r c = true ->
  offset rows cols use_free_space r (c + 1) = offset rows cols use_free_space r c.
Proof. intros H. booleans; try discriminate; lia. Qed.

Lemma offset_item (r c : Z) :
  is_free_cell use_free_space rows cols r c = false ->
  offset rows cols use_free_space r (c + 1) = offset rows cols use_free_space r c + 1.
Proof. intros H. booleans; try discriminate; lia. Qed.

Lemma offset_bound (r c : Z) :
  0 <= r < rows -> 0 <= c < cols ->
  is_free_cell use_free_space rows cols r c = false ->
  0 <= offset rows cols use_free_space r c < len chosen.
Proof.
  intros Hr Hc H. rewrite chosen_len.
  assert (H1 : r * cols + cols <= rows * cols) by nia.
  assert (H2 : 0 <= r * cols) by nia.
  assert (H3 : rows / 2 * cols + cols <= rows * cols)
    by (assert (rows / 2 + 1 <= rows) by lia; nia).
  assert (H4 : r < rows / 2 -> r * cols + cols <= rows / 2 * cols) by nia.
  booleans; try discriminate; lia.
Qed.

Lemma offset_next_row (r : Z) :
  offset rows cols use_free_space r cols = offset rows cols use_free_space (r + 1) 0.
Proof. booleans; lia. Qed.

Lemma offset_origin : offset rows cols use_free_space 0 0 = 0.
Proof. booleans; lia. Qed.

Lemma fill_row_closed (r : Z) (n a : nat) :
  0 <= r < rows -> Z.of_nat a + Z.of_nat n <= cols ->
  fill_row chosen rows cols use_free_space free_space_text r
    (map Z.of_nat (seq a n)) (offset rows cols use_free_space r (Z.of_nat a))
  = inr (map (cell_text chosen rows cols use_free_space free_space_text r)
           (map Z.of_nat (seq a n)),
         offset rows cols use_free_space r (Z.of_nat a + Z.of_nat n)).
Proof.
  intros Hr. revert a. induction n as [|n IH]; intros a Ha.
  - simpl. unfold ret. now rewrite Z.add_0_r.
  - cbn [seq map fill_row]. unfold cell_text at 1.
    destruct (is_free_cell use_free_space rows cols r (Z.of_nat a)) eqn:E.
    + rewrite <- (offset_free _ _ E).
      replace (Z.of_nat a + 1) with (Z.of_nat (S a)) by lia.
      rewrite IH by lia. cbn [bind]. unfold ret. do 3 f_equal. lia.
    + rewrite getitem_in_range by (apply offset_bound; [lia|lia|exact E]).
      cbn [bind]. rewrite <- (offset_item _ _ E).
      replace (Z.of_nat a + 1) with (Z.of_nat (S a)) by lia.
      rewrite IH by lia. cbn [bind]. unfold ret. do 3 f_equal. lia.
Qed.

Lemma fill_rows_closed (n a : nat) :
  Z.of_nat a + Z.of_nat n <= rows ->
  fill_rows chosen rows cols use_free_space free_space_text
    (map Z.of_nat (seq a n)) (offset rows cols use_free_space (Z.of_nat a) 0)
  = inr (map (fun r => map (cell_text chosen rows cols use_free_space
                                  free_space_text r) (range cols))
           (map Z.of_nat (seq a n)),
         offset rows cols use_free_space (Z.of_nat a + Z.of_nat n) 0).
Proof.
  revert a. induction n as [|n IH]; intros a Ha.
  - simpl. unfold ret. now rewrite Z.add_0_r.
  - cbn [seq map fill_rows]. unfold range at 1.
    pose proof (fill_row_closed (Z.of_nat a) (Z.to_nat cols) 0) as Hrow.
    change (Z.of_nat 0) with 0 in Hrow.
    rewrite Hrow by lia. cbn [bind].
    replace (0 + Z.of_nat (Z.to_nat cols)) with cols by lia.
    rewrite offset_next_row.
    replace (Z.of_nat a + 1) with (Z.of_nat (S a)) by lia.
    rewrite IH by lia. cbn [bind]. unfold ret, range. do 3 f_equal. lia.
Qed.

Lemma fill_rows_card :
  fill_rows chosen rows cols use_free_space free_space_text (range rows) 0
  = inr (card_of chosen rows cols use_free_space free_space_text,
         offset rows cols use_free_space rows 0).
Proof.
  pose proof (fill_rows_closed (Z.to_nat rows) 0) as H.
  change (Z.of_nat 0) with 0 in H. rewrite offset_origin in H.
  unfold range at 1. rewrite H by lia. unfold card_of, range.
  do 3 f_equal. lia.
Qed.
End SamplerFacts.

Lemma insert_at_length {A} (m : nat) (x : A) (l : list A) :
  List.length (insert_at m x l) = S (List.length l).
Proof.
  unfold insert_at. rewrite length_app. cbn [List.length].
  rewrite length_firstn, length_skipn. lia.
Qed.

Lemma nth_error_insert_at {A} (m : nat) (x : A) (l : list A) (i : nat) :
  (m <= List.length l)%nat ->
  nth_error (insert_at m x l) i
  = if (i <? m)%nat then nth_error l i
    else if (i =? m)%nat then Some x
    else nth_error l (i - 1).
Proof.
  intros Hm. unfold insert_at.
  assert (Hf : List.length (firstn m l) = m) by (rewrite length_firstn; lia).
  destruct (Nat.ltb_spec i m) as [Hlt|Hge].
  - rewrite nth_error_app1 by lia. now rewrite nth_error_firstn, (proj2 (Nat.ltb_lt _ _) Hlt).
  - rewrite nth_error_app2 by lia. rewrite Hf.
    destruct (Nat.eqb_spec i m) as [->|Hne].
    + now rewrite Nat.sub_diag.
    + destruct (i - m)%nat as [|k] eqn:E; [lia|]. cbn [nth_error].
      rewrite nth_error_skipn. f_equal. lia.
Qed.

Section GridFacts.
Variable f : Z -> Z -> string.
Variable cols : Z.
Hypothesis cols_pos : 1 <= cols.

Lemma grid_rows_concat_nth (n a : nat) (r c : Z) :
  Z.of_nat a <= r < Z.of_nat a + Z.of_nat n -> 0 <= c < cols ->
  nth_error (List.concat (map (fun r => map (f r) (range cols)) (map Z.of_nat (seq a n))))
            (Z.to_nat ((r - Z.of_nat a) * cols + c))
  = Some (f r c).
Proof.
  revert a. induction n as [|n IH]; intros a Hr Hc; [lia|].
  cbn [seq map List.concat].
  assert (Hl : List.length (map (f (Z.of_nat a)) (range cols)) = Z.to_nat cols)
    by now rewrite length_map, range_length.
  destruct (Z.eq_dec r (Z.of_nat a)) as [->|Hne].
  - rewrite Z.sub_diag, Z.mul_0_l, Z.add_0_l.
    rewrite nth_error_app1 by lia.
    rewrite nth_error_map, range_nth_error by lia. reflexivity.
  - rewrite nth_error_app2 by nia. rewrite Hl.
    replace (Z.to_nat ((r - Z.of_nat a) * cols + c) - Z.to_nat cols)%nat
      with (Z.to_nat ((r - Z.of_nat (S a)) * cols + c)) by nia.
    apply IH; lia.
Qed.

Lemma grid_rows_concat_length (n a : nat) :
  List.length (List.concat (map (fun r => map (f r) (range cols)) (map Z.of_nat (seq a n))))
  = (n * Z.to_nat cols)%nat.
Proof.
  revert a. induction n as [|n IH]; intros a; [reflexivity|].
  cbn [seq map List.concat]. rewrite length_app, length_map, range_length, IH. lia.
Qed.

Lemma grid_concat_nth (rows r c : Z) :
  0 <= r < rows -> 0 <= c < cols ->
  nth_error (List.concat (map (fun r => map (f r) (range cols)) (range rows)))
            (Z.to_nat (r * cols + c))
  = Some (f r c).
Proof.
  intros Hr Hc. unfold range at 2.
  pose proof (grid_rows_concat_nth (Z.to_nat rows) 0 r c) as H.
  change (Z.of_nat 0) with 0 in H. rewrite Z.sub_0_r in H. apply H; lia.
Qed.

Lemma grid_concat_length (rows : Z) :
  0 <= rows ->
  len (List.concat (map (fun r => map (f r) (range cols)) (range rows))) = rows * cols.
Proof.
  intros Hr. unfold len, range at 2. rewrite grid_rows_concat_length. nia.
Qed.

Lemma grid_cell (rows r c : Z) :
  0 <= r < rows -> 0 <= c < cols ->
  cell (map (fun r => map (f r) (range cols)) (range rows)) r c = Some (f r c).
Proof.
  intros Hr Hc. unfold cell.
  rewrite getitem_nth_error by lia.
  rewrite nth_error_map, range_nth_error by lia. cbn.
  rewrite getitem_nth_error by lia.
  rewrite nth_error_map, range_nth_error by lia. reflexivity.
Qed.
End GridFacts.

(* ------------------------------------------------------------------ *)
(** ** What [random.sample] returns under its contract *)

Lemma random_sample_ok (picks : list nat) (items : list string) (k : Z) :
  0 <= k <= len items -> random_sample picks items k = inr (sampled picks items).
Proof.
  intros Hk. unfold random_sample.
  destruct (Z.ltb_spec k 0); [lia|].
  destruct (Z.ltb_spec (len items) k); [lia|]. reflexivity.
Qed.

Lemma sampled_len (picks : list nat) (items : list string) (k : Z) :
  0 <= k -> sample_choice (List.length items) k picks ->
  len (sampled picks items) = k.
Proof.
  intros Hk (Hl & _). unfold len, sampled. rewrite length_map, Hl. lia.
Qed.

Lemma sampled_in (picks : list nat) (items : list string) (s : string) :
  Forall (fun i => (i < List.length items)%nat) picks ->
  In s (sampled picks items) -> In s items.
Proof.
  intros Hp Hs. unfold sampled in Hs. apply in_map_iff in Hs.
  destruct Hs as (i & <- & Hi). apply nth_In.
  rewrite Forall_forall in Hp. now apply Hp.
Qed.

Lemma sampled_NoDup (picks : list nat) (items : list string) :
  NoDup items -> NoDup picks ->
  Forall (fun i => (i < List.length items)%nat) picks ->
  NoDup (sampled picks items).
Proof.
  intros Hitems Hpicks. induction Hpicks as [|i picks Hi Hnd IH]; intros Hr.
  - constructor.
  - inversion Hr as [|? ? Hlt Hr']; subst. cbn. constructor; [|now apply IH].
    intros Hin. apply in_map_iff in Hin. destruct Hin as (j & Hj & Hjin).
    rewrite Forall_forall in Hr'. specialize (Hr' j Hjin).
    rewrite NoDup_nth in Hitems.
    specialize (Hitems j i Hr' Hlt Hj). subst j. contradiction.
Qed.

Lemma cells_needed_nonneg (use_free_space : bool) (rows cols : Z) :
  1 <= rows -> 1 <= cols -> 0 <= cells_needed use_free_space rows cols.
Proof.
  intros Hr Hc. unfold cells_needed.
  destruct (free_applies use_free_space rows cols); nia.
Qed.

(** Under the sampling contract, and with a pool that is large enough,
    [generate_card] returns the grid [card_of] of the sampled items. *)
Lemma generate_card_closed (picks : list nat) (items : list string)
    (rows cols : Z) (use_free_space : bool) (free_space_text : string) :
  1 <= rows -> 1 <= cols ->
  cells_needed use_free_space rows cols <= len items ->
  sample_choice (List.length items) (cells_needed use_free_space rows cols) picks ->
  generate_card picks items rows cols use_free_space free_space_text
  = inr (card_of (sampled picks items) rows cols use_free_space free_space_text).
Proof.
  intros Hr Hc Hn Hp. unfold generate_card.
  pose proof (cells_needed_nonneg use_free_space rows cols Hr Hc) as H0.
  rewrite random_sample_ok by lia. cbn [bind].
  rewrite fill_rows_card; [reflexivity|lia|lia|].
  now apply sampled_len.
Qed.

Lemma is_free_cell_eq (use_free_space : bool) (rows cols r c : Z) :
  is_free_cell use_free_space rows cols r c
  = free_applies use_free_space rows cols && (r =? rows / 2) && (c =? cols / 2).
Proof. reflexivity. Qed.

Section CardFacts.
Variable chosen : list string.
Variables rows cols : Z.
Variable use_free_space : bool.
Variable free_space_text : string.

Hypothesis rows_pos : 1 <= rows.
Hypothesis cols_pos : 1 <= cols.
Hypothesis chosen_len : len chosen = cells_needed use_free_space rows cols.

Let card := card_of chosen rows cols use_free_space free_space_text.

Lemma card_of_rows : len card = rows.
Proof. unfold card, card_of, len. rewrite length_map, range_length. lia. Qed.

Lemma card_of_cols : Forall (fun row => len row = cols) card.
Proof.
  unfold card, card_of. rewrite Forall_map, Forall_forall. intros r _.
  unfold len. rewrite length_map, range_length. lia.
Qed.

Lemma card_of_cell (r c : Z) :
  0 <= r < rows -> 0 <= c < cols ->
  cell card r c = Some (cell_text chosen rows cols use_free_space free_space_text r c).
Proof. intros Hr Hc. unfold card, card_of. now apply grid_cell. Qed.

Lemma card_of_concat :
  List.concat card
  = if free_applies use_free_space rows cols
    then insert_at (center_index rows cols) free_space_text chosen
    else chosen.
Proof.
  apply nth_error_ext. intros i.
  assert (Hlen : len (List.concat card) = rows * cols)
    by (unfold card, card_of; apply grid_concat_length; lia).
  assert (Hm : 0 <= rows / 2 * cols + cols / 2 < rows * cols).
  { assert (rows / 2 + 1 <= rows) by lia. assert (0 <= rows / 2) by lia. nia. }
  unfold cells_needed in chosen_len. unfold len in chosen_len, Hlen.
  destruct (Z.lt_ge_cases (Z.of_nat i) (rows * cols)) as [Hi|Hi].
  - set (r := Z.of_nat i / cols). set (c := Z.of_nat i mod cols).
    assert (Hrc : Z.of_nat i = r * cols + c) by (subst r c; nia).
    assert (Hc : 0 <= c < cols) by (subst c; lia).
    assert (Hr : 0 <= r < rows) by (subst r; nia).
    replace i with (Z.to_nat (r * cols + c)) at 1 by lia.
    unfold card, card_of. rewrite grid_concat_nth by assumption.
    unfold cell_text, offset, center_before. rewrite is_free_cell_eq.
    destruct (free_applies use_free_space rows cols) eqn:E; cbn [andb].
    + rewrite nth_error_insert_at by (unfold center_index; lia).
      unfold center_index.
      assert (Hlt : r < rows / 2 -> r * cols + cols <= rows / 2 * cols) by nia.
      assert (Hgt : rows / 2 < r -> rows / 2 * cols + cols <= r * cols) by nia.
      destruct (Z.eqb_spec r (rows / 2)) as [Er|Er];
        destruct (Z.eqb_spec c (cols / 2)) as [Ec|Ec];
        destruct (Z.ltb_spec (rows / 2) r);
        destruct (Z.ltb_spec (cols / 2) c);
        destruct (Nat.ltb_spec i (Z.to_nat (rows / 2 * cols + cols / 2)));
        destruct (Nat.eqb_spec i (Z.to_nat (rows / 2 * cols + cols / 2)));
        cbn [andb orb]; try (exfalso; nia); try reflexivity;
        symmetry;
        rewrite (nth_error_nth' chosen EmptyString) by nia;
        do 2 f_equal; nia.
    + rewrite Z.sub_0_r. symmetry.
      rewrite (nth_error_nth' chosen EmptyString) by lia.
      do 2 f_equal. lia.
  - transitivity (@None string).
    + apply nth_error_None. lia.
    + symmetry. apply nth_error_None.
      destruct (free_applies use_free_space rows cols);
        [rewrite insert_at_length|]; lia.
Qed.

Lemma card_of_center :
  free_applies use_free_space rows cols = true ->
  cell card (rows / 2) (cols / 2) = Some free_space_text.
Proof.
  intros E. rewrite card_of_cell by lia.
  unfold cell_text. rewrite is_free_cell_eq, E, !Z.eqb_refl. reflexivity.
Qed.

Lemma card_of_item (r c : Z) :
  0 <= r < rows -> 0 <= c < cols ->
  is_free_cell use_free_space rows cols r c = false ->
  exists s, cell card r c = Some s /\ In s chosen.
Proof.
  intros Hr Hc E. rewrite card_of_cell by lia. unfold cell_text. rewrite E.
  eexists. split; [reflexivity|]. apply nth_In.
  pose proof (offset_bound chosen rows cols use_free_space rows_pos cols_pos
                chosen_len r c Hr Hc E) as Hb.
  unfold len in Hb. lia.
Qed.
End CardFacts.

Lemma free_applies_iff (use_free_space : bool) (rows cols : Z) :
  free_applies use_free_space rows cols = true
  <-> use_free_space = true /\ rows mod 2 = 1 /\ cols mod 2 = 1.
Proof.
  unfold free_applies. rewrite !andb_true_iff, !Z.eqb_eq. tauto.
Qed.

Lemma is_free_cell_false_iff (use_free_space : bool) (rows cols r c : Z) :
  is_free_cell use_free_space rows cols r c = false
  <-> free_applies use_free_space rows cols = false
      \/ (r, c) <> (rows / 2, cols / 2).
Proof.
  rewrite is_free_cell_eq.
  destruct (free_applies use_free_space rows cols); cbn [andb].
  - destruct (Z.eqb_spec r (rows / 2)), (Z.eqb_spec c (cols / 2)); cbn [andb];
      split; intros H; try reflexivity; try discriminate.
    + destruct H as [H|H]; [discriminate|]. subst. now contradiction H.
    + right. intros [= ? ?]. contradiction.
    + right. intros [= ? ?]. contradiction.
    + right. intros [= ? ?]. contradiction.
  - split; [now left|reflexivity].
Qed.

(** Row-major comparison of two cells is comparison of their linear
    indices. *)
Lemma row_major_lt (cols r c r' c' : Z) :
  0 <= c < cols -> 0 <= c' < cols ->
  (r' <? r) || ((r =? r') && (c' <? c)) = (r' * cols + c' <? r * cols + c).
Proof.
  intros Hc Hc'.
  assert (r' < r -> r' * cols + cols <= r * cols) by nia.
  assert (r < r' -> r * cols + cols <= r' * cols) by nia.
  destruct (Z.ltb_spec r' r), (Z.eqb_spec r r'), (Z.ltb_spec c' c),
    (Z.ltb_spec (r' * cols + c') (r * cols + c));
    cbn [andb orb]; try reflexivity; exfalso; subst; lia.
Qed.

Lemma row_major_eq (cols r c r' c' : Z) :
  0 <= c < cols -> 0 <= c' < cols ->
  r * cols + c = r' * cols + c' -> r = r' /\ c = c'.
Proof.
  intros Hc Hc' H.
  assert (r = r').
  { destruct (Z.lt_trichotomy r r') as [L|[L|L]]; [exfalso|assumption|exfalso]; nia. }
  subst. lia.
Qed.

Section DistinctFacts.
Variable chosen : list string.
Variables rows cols : Z.
Variable use_free_space : bool.
Variable free_space_text : string.

Hypothesis rows_pos : 1 <= rows.
Hypothesis cols_pos : 1 <= cols.
Hypothesis chosen_len : len chosen = cells_needed use_free_space rows cols.

Lemma offset_injective (r c r' c' : Z) :
  0 <= r < rows -> 0 <= c < cols -> 0 <= r' < rows -> 0 <= c' < cols ->
  is_free_cell use_free_space rows cols r c = false ->
  is_free_cell use_free_space rows cols r' c' = false ->
  offset rows cols use_free_space r c = offset rows cols use_free_space r' c' ->
  (r, c) = (r', c').
Proof.
  intros Hr Hc Hr' Hc' E E' Ho.
  apply is_free_cell_false_iff in E, E'.
  unfold offset, center_before in Ho.
  assert (Hm : 0 <= cols / 2 < cols) by lia.
  rewrite !(row_major_lt cols) in Ho by assumption.
  assert (Hne : forall a b, (a, b) <> (rows / 2, cols / 2) ->
                0 <= b < cols -> a * cols + b <> rows / 2 * cols + cols / 2).
  { intros a b Hab Hb Heq. apply Hab.
    destruct (row_major_eq cols a b (rows / 2) (cols / 2) Hb Hm Heq). now subst. }
  enough (r * cols + c = r' * cols + c') as Heq.
  { destruct (row_major_eq cols r c r' c' Hc Hc' Heq). now subst. }
  destruct (free_applies use_free_space rows cols); cbn [andb] in Ho.
  - destruct E as [E|E]; [discriminate|]. destruct E' as [E'|E']; [discriminate|].
    pose proof (Hne _ _ E Hc). pose proof (Hne _ _ E' Hc').
    destruct (Z.ltb_spec (rows / 2 * cols + cols / 2) (r * cols + c)),
      (Z.ltb_spec (rows / 2 * cols + cols / 2) (r' * cols + c')); lia.
  - lia.
Qed.

Lemma card_of_distinct :
  NoDup chosen ->
  distinct_cells use_free_space rows cols
    (card_of chosen rows cols use_free_space free_space_text).
Proof.
  intros Hnd r c r' c' Hr Hc Hr' Hc' E E' Hne Heq.
  rewrite !card_of_cell in Heq by assumption.
  unfold cell_text in Heq. rewrite E, E' in Heq.
  injection Heq as Heq.
  pose proof (offset_bound chosen rows cols use_free_space rows_pos cols_pos
                chosen_len r c Hr Hc E) as Hb.
  pose proof (offset_bound chosen rows cols use_free_space rows_pos cols_pos
                chosen_len r' c' Hr' Hc' E') as Hb'.
  unfold len in Hb, Hb'.
  rewrite NoDup_nth in Hnd. apply Hnd in Heq; [|lia|lia].
  apply Hne. apply offset_injective; try assumption. lia.
Qed.
End DistinctFacts.

(* ------------------------------------------------------------------ *)
(** ** Theorems on the card sampler *)

Ltac sample_choice_by_computation :=
  repeat split;
  [ repeat (constructor; [cbn; intuition lia|]); constructor
  | repeat constructor; cbn; lia ].

(** A cell of the sampled grid that is not the free cell holds a pool item. *)
Lemma sampled_card_item (picks : list nat) (items : list string)
    (rows cols : Z) (use_free_space : bool) (free_space_text : string) :
  1 <= rows -> 1 <= cols ->
  sample_choice (List.length items) (cells_needed use_free_space rows cols) picks ->
  forall r c, 0 <= r < rows -> 0 <= c < cols ->
    is_free_cell use_free_space rows cols r c = false ->
    exists s,
      cell (card_of (sampled picks items) rows cols use_free_space free_space_text) r c
      = Some s /\ In s items.
Proof.
  intros Hr Hc Hp r c Hrr Hcc E.
  pose proof (cells_needed_nonneg use_free_space rows cols Hr Hc) as H0.
  pose proof (sampled_len picks items _ H0 Hp) as Hl.
  destruct (card_of_item _ _ _ _ free_space_text Hr Hc Hl r c Hrr Hcc E) as (s & Hs & Hin).
  exists s. split; [exact Hs|]. eapply sampled_in; [|exact Hin]. apply Hp.
Qed.

(** C1.  For every pool and every [rows >= 1], [cols >= 1] with at least
    [cells_needed] items in the pool, [generate_card] returns a card of
    exactly [rows] rows of [cols] cells each.  Read in row-major order the
    card is the list of drawn items, with the free label put at the center
    position when the free space applies and nothing put in otherwise; the
    center cell then holds the free label, and every other cell holds an
    item of the pool. *)
Theorem generate_card_row_major (picks : list nat) (items : list string)
    (rows cols : Z) (use_free_space : bool) (free_space_text : string) :
  1 <= rows -> 1 <= cols ->
  cells_needed use_free_space rows cols <= len items ->
  sample_choice (List.length items) (cells_needed use_free_space rows cols) picks ->
  exists card,
    generate_card picks items rows cols use_free_space free_space_text = inr card
    /\ len card = rows
    /\ Forall (fun row => len row = cols) card
    /\ List.concat card
       = (if free_applies use_free_space rows cols
          then insert_at (center_index rows cols) free_space_text (sampled picks items)
          else sampled picks items)
    /\ (free_applies use_free_space rows cols = true ->
        cell card (rows / 2) (cols / 2) = Some free_space_text)
    /\ (forall r c, 0 <= r < rows -> 0 <= c < cols ->
        is_free_cell use_free_space rows cols r c = false ->
        exists s, cell card r c = Some s /\ In s items).
Proof.
  intros Hr Hc Hn Hp. eexists. split; [now apply generate_card_closed|].
  pose proof (cells_needed_nonneg use_free_space rows cols Hr Hc) as H0.
  pose proof (sampled_len picks items _ H0 Hp) as Hl.
  split; [now apply card_of_rows|].
  split; [now apply card_of_cols|].
  split; [now apply card_of_concat|].
  split; [now apply card_of_center|].
  now apply sampled_card_item.
Qed.

Lemma generate_card_row_major_witness :
  exists card,
    generate_card [3; 1; 0; 2; 4; 5; 6; 7]%nat
      ["a"; "b"; "c"; "d"; "e"; "f"; "g"; "h"] 3 3 true "FREE" = inr card
    /\ len card = 3
    /\ List.concat card = ["d"; "b"; "a"; "c"; "FREE"; "e"; "f"; "g"; "h"].
Proof.
  destruct (generate_card_row_major [3; 1; 0; 2; 4; 5; 6; 7]%nat
              ["a"; "b"; "c"; "d"; "e"; "f"; "g"; "h"] 3 3 true "FREE")
    as (card & Hcard & Hrows & _ & Hflat & _).
  - lia.
  - lia.
  - vm_compute. discriminate.
  - sample_choice_by_computation.
  - exists card. split; [exact Hcard|]. split; [exact Hrows|exact Hflat].
Defined.

(** C2 as stated fails: a pool may list the same string twice, and the
    sample is taken over pool positions.  With the pool [a, a] on a 1 x 2
    grid both cells hold [a]. *)
Lemma repeated_item_counterexample :
  sample_choice 2 (cells_needed false 1 2) [0; 1]%nat
  /\ generate_card [0; 1]%nat ["a"; "a"] 1 2 false "FREE" = inr [["a"; "a"]]
  /\ ~ distinct_cells false 1 2 [["a"; "a"]].
Proof.
  split; [sample_choice_by_computation|]. split; [reflexivity|].
  intros H. apply (H 0 0 0 1); try lia; try reflexivity. discriminate.
Qed.

(** C2, amended.  For every pool whose items are pairwise distinct, no two
    non-free cells of a card produced by [generate_card] hold the same
    string. *)
Theorem generate_card_distinct (picks : list nat) (items : list string)
    (rows cols : Z) (use_free_space : bool) (free_space_text : string) :
  NoDup items ->
  1 <= rows -> 1 <= cols ->
  cells_needed use_free_space rows cols <= len items ->
  sample_choice (List.length items) (cells_needed use_free_space rows cols) picks ->
  exists card,
    generate_card picks items rows cols use_free_space free_space_text = inr card
    /\ distinct_cells use_free_space rows cols card.
Proof.
  intros Hnd Hr Hc Hn Hp. eexists. split; [now apply generate_card_closed|].
  pose proof (cells_needed_nonneg use_free_space rows cols Hr Hc) as H0.
  apply card_of_distinct; try assumption.
  - now apply sampled_len.
  - destruct Hp as (_ & Hp1 & Hp2). now apply sampled_NoDup.
Qed.

Lemma generate_card_distinct_witness :
  exists card,
    generate_card [3; 1; 0; 2]%nat ["a"; "b"; "c"; "d"; "e"] 2 2 true "FREE"
    = inr card
    /\ distinct_cells true 2 2 card.
Proof.
  apply generate_card_distinct.
  - repeat (constructor; [cbn; intuition discriminate|]); constructor.
  - lia.
  - lia.
  - vm_compute. discriminate.
  - sample_choice_by_computation.
Defined.

(** C3.  For every [rows >= 1], [cols >= 1], flag and label, the card is
    produced without error, also when the free space is requested on a grid
    with an even dimension.  When the flag is set and both dimensions are
    odd, the center cell holds the free label and every other cell holds a
    pool item; in every other case every cell holds a pool item.  With a
    label that is not itself a pool item, the label is on the card if and
    only if the flag is set and [rows] and [cols] are both odd. *)
Theorem free_label_rule (picks : list nat) (items : list string)
    (rows cols : Z) (use_free_space : bool) (free_space_text : string) :
  1 <= rows -> 1 <= cols ->
  cells_needed use_free_space rows cols <= len items ->
  sample_choice (List.length items) (cells_needed use_free_space rows cols) picks ->
  exists card,
    generate_card picks items rows cols use_free_space free_space_text = inr card
    /\ (use_free_space = true /\ rows mod 2 = 1 /\ cols mod 2 = 1 ->
        cell card (rows / 2) (cols / 2) = Some free_space_text
        /\ forall r c, 0 <= r < rows -> 0 <= c < cols ->
             (r, c) <> (rows / 2, cols / 2) ->
             exists s, cell card r c = Some s /\ In s items)
    /\ (~ (use_free_space = true /\ rows mod 2 = 1 /\ cols mod 2 = 1) ->
        forall r c, 0 <= r < rows -> 0 <= c < cols ->
          exists s, cell card r c = Some s /\ In s items)
    /\ (~ In free_space_text items ->
        ((exists r c, 0 <= r < rows /\ 0 <= c < cols
                      /\ cell card r c = Some free_space_text)
         <-> use_free_space = true /\ rows mod 2 = 1 /\ cols mod 2 = 1)).
Proof.
  intros Hr Hc Hn Hp.
  eexists. split; [now apply generate_card_closed|].
  pose proof (cells_needed_nonneg use_free_space rows cols Hr Hc) as H0.
  pose proof (sampled_len picks items _ H0 Hp) as Hl.
  pose proof (card_of_center (sampled picks items) rows cols use_free_space
                free_space_text Hr Hc) as Hcenter.
  pose proof (sampled_card_item picks items rows cols use_free_space
                free_space_text Hr Hc Hp) as Hitem.
  rewrite <- free_applies_iff.
  split; [|split].
  - intros E. split; [now apply Hcenter|].
    intros r c Hrr Hcc Hne. apply Hitem; try assumption.
    apply is_free_cell_false_iff. now right.
  - intros E r c Hrr Hcc. apply Hitem; try assumption.
    apply is_free_cell_false_iff. left.
    now destruct (free_applies use_free_space rows cols).
  - intros Hout. split.
    + intros (r & c & Hrr & Hcc & Hcell).
      destruct (free_applies use_free_space rows cols) eqn:E; [reflexivity|].
      exfalso. apply Hout.
      destruct (Hitem r c Hrr Hcc) as (s & Hs & Hin).
      * apply is_free_cell_false_iff. now left.
      * rewrite Hcell in Hs. injection Hs as <-. exact Hin.
    + intros E. exists (rows / 2), (cols / 2).
      split; [lia|]. split; [lia|]. now apply Hcenter.
Qed.

Lemma free_label_rule_witness :
  exists card,
    generate_card [3; 1; 0; 2]%nat ["a"; "b"; "c"; "d"; "e"] 2 2 true "FREE"
    = inr card
    /\ forall r c, 0 <= r < 2 -> 0 <= c < 2 ->
         exists s, cell card r c = Some s /\ In s ["a"; "b"; "c"; "d"; "e"].
Proof.
  destruct (free_label_rule [3; 1; 0; 2]%nat ["a"; "b"; "c"; "d"; "e"] 2 2 true "FREE")
    as (card & Hcard & _ & Heven & _).
  - lia.
  - lia.
  - vm_compute. discriminate.
  - sample_choice_by_computation.
  - exists card. split; [exact Hcard|]. apply Heven.
    intros (_ & H & _). vm_compute in H. discriminate.
Defined.

(* ------------------------------------------------------------------ *)
(** ** Drawing code only appends to the page in progress *)

Lemma appends_dret {A} (a : A) : appends (dret a) a [].
Proof. intros [fn pg pgs]. unfold dret. cbn. now rewrite app_nil_r. Qed.

Lemma appends_emit (op : canvas_op) : appends (emit op) tt [op].
Proof. intros cv. reflexivity. Qed.

Lemma appends_lift {A} (m : res A) (a : A) : m = inr a -> appends (lift m) a [].
Proof. intros -> [fn pg pgs]. unfold lift. cbn. now rewrite app_nil_r. Qed.

Lemma appends_bind {A B} (m : draw A) (k : A -> draw B) a b ops1 ops2 :
  appends m a ops1 -> appends (k a) b ops2 ->
  appends (dbind m k) b (ops1 ++ ops2).
Proof.
  intros Hm Hk cv. unfold dbind. rewrite Hm, Hk. cbn. now rewrite app_assoc.
Qed.

Lemma appends_for_each {A} (body : A -> draw unit) (l : list A) :
  (forall a, In a l -> exists ops, appends (body a) tt ops) ->
  exists ops, appends (for_each l body) tt ops.
Proof.
  induction l as [|a l IH]; intros Hbody.
  - exists []. apply appends_dret.
  - destruct (Hbody a (or_introl eq_refl)) as (ops1 & H1).
    destruct IH as (ops2 & H2); [intros; apply Hbody; now right|].
    exists (ops1 ++ ops2). cbn [for_each]. eapply appends_bind; eassumption.
Qed.

(* ------------------------------------------------------------------ *)
(** ** The size search *)

Lemma candidate_sizes_eq : candidate_sizes = [11; 10; 9; 8; 7; 6].
Proof. reflexivity. Qed.

Lemma half_size_nonzero (s : Z) : s <> 0 -> Qeq_bool (Zq s * (1 # 2)) 0 = false.
Proof.
  intros Hs. destruct (Qeq_bool (Zq s * (1 # 2)) 0) eqn:E; [|reflexivity].
  apply Qeq_bool_eq in E. unfold Qeq, Zq in E. cbn in E. lia.
Qed.

Lemma wrap_width_ok (max_w : Q) (s : Z) :
  s <> 0 -> exists width, wrap_width max_w s = inr width /\ 8 <= width.
Proof.
  intros Hs. unfold wrap_width, truediv. rewrite half_size_nonzero by assumption.
  cbn [bind]. eexists. split; [reflexivity|]. lia.
Qed.

Lemma layout_at_ok (wrap : string -> Z -> list string) (text : string) (max_w : Q) (s : Z) :
  s <> 0 ->
  exists width,
    wrap_width max_w s = inr width /\ 8 <= width
    /\ layout_at wrap text max_w s
       = inr (mkFitted s (wrap text width) (Zq s * (6 # 5))
                (Zq (len (wrap text width)) * (Zq s * (6 # 5)))).
Proof.
  intros Hs. destruct (wrap_width_ok max_w s Hs) as (width & Hw & H8).
  exists width. split; [exact Hw|]. split; [exact H8|].
  unfold layout_at. rewrite Hw. cbn [bind]. unfold textwrap_wrap.
  destruct (Z.leb_spec width 0); [lia|]. reflexivity.
Qed.

Section RendererFacts.
Variable wrap : string -> Z -> list string.
Variable stringWidth : string -> string -> Z -> Q.

Lemma fits_cell_iff (font_name : string) (max_w max_h : Q) (f : fitted) :
  fits_cell stringWidth font_name max_w max_h f = true
  <-> Fits stringWidth font_name max_w max_h f.
Proof.
  unfold fits_cell, Fits.
  destruct (Qle_bool (total_text_h f) max_h) eqn:E.
  - apply Qle_bool_iff in E. rewrite negb_true_iff.
    split.
    + intros H. split; [exact E|]. apply Forall_forall. intros line Hl.
      destruct (Qle_bool (stringWidth line font_name (size f)) max_w) eqn:El.
      * now apply Qle_bool_iff.
      * exfalso. assert (Hex : existsb (fun line =>
            Qgt_bool (stringWidth line font_name (size f)) max_w) (wrapped f) = true).
        { apply existsb_exists. exists line. split; [exact Hl|].
          unfold Qgt_bool. now rewrite El. }
        congruence.
    + intros (_ & H). rewrite Forall_forall in H.
      destruct (existsb _ (wrapped f)) eqn:Ex; [|reflexivity].
      apply existsb_exists in Ex. destruct Ex as (line & Hl & Hg).
      unfold Qgt_bool in Hg. apply negb_true_iff in Hg.
      apply H, Qle_bool_iff in Hl. congruence.
  - split; [discriminate|]. intros (H & _). apply Qle_bool_iff in H. congruence.
Qed.

Lemma fit_loop_first_fit (text font_name : string) (max_w max_h : Q)
    (sizes : list Z) :
  Forall (fun s => s <> 0) sizes ->
  exists found ops,
    appends (fit_loop wrap stringWidth text font_name max_w max_h sizes) found ops
    /\ first_fit wrap stringWidth text font_name max_w max_h sizes found.
Proof.
  induction sizes as [|s sizes IH]; intros Hnz.
  - exists None, []. split; [apply appends_dret|constructor].
  - inversion Hnz as [|? ? Hs Hnz']; subst.
    destruct (layout_at_ok wrap text max_w s Hs) as (width & _ & _ & Hlay).
    set (f := mkFitted s (wrap text width) (Zq s * (6 # 5))
                (Zq (len (wrap text width)) * (Zq s * (6 # 5)))) in *.
    cbn [fit_loop].
    destruct (fits_cell stringWidth font_name max_w max_h f) eqn:E.
    + exists (Some f), ([SetFont font_name s] ++ [] ++ []). split.
      * eapply appends_bind; [apply appends_emit|].
        eapply appends_bind; [apply appends_lift; exact Hlay|].
        rewrite E. apply appends_dret.
      * exists [], sizes. repeat split; try assumption. constructor.
    + destruct (IH Hnz') as (found & ops & Happ & Hff).
      exists found, ([SetFont font_name s] ++ [] ++ ops). split.
      * eapply appends_bind; [apply appends_emit|].
        eapply appends_bind; [apply appends_lift; exact Hlay|].
        rewrite E. exact Happ.
      * assert (Hs' : fits_at wrap stringWidth text font_name max_w max_h s = false)
          by (unfold fits_at; now rewrite Hlay).
        destruct found as [g|]; cbn in Hff |- *.
        -- destruct Hff as (before & after & -> & Hg & Hfit & Hbefore).
           exists (s :: before), after. repeat split; try assumption.
           now constructor.
        -- now constructor.
Qed.
End RendererFacts.

Lemma appends_for_each_emit {A} (body : A -> draw unit) (g : A -> canvas_op)
    (l : list A) :
  (forall a, body a = emit (g a)) ->
  appends (for_each l body) tt (map g l).
Proof.
  intros Hbody. induction l as [|a l IH].
  - apply appends_dret.
  - cbn [for_each map]. change (g a :: map g l) with ([g a] ++ map g l).
    eapply appends_bind; [rewrite Hbody; apply appends_emit|exact IH].
Qed.

(** In a strictly descending list, what is larger than an element stands
    before it. *)
Lemma descending_before (l before after : list Z) (x s : Z) :
  StronglySorted Z.gt l -> l = before ++ x :: after ->
  In s l -> x < s -> In s before.
Proof.
  revert l. induction before as [|b before IH]; intros l Hs -> Hin Hlt.
  - cbn in Hs, Hin. apply StronglySorted_inv in Hs. destruct Hs as (_ & Hall).
    destruct Hin as [->|Hin]; [lia|].
    rewrite Forall_forall in Hall. specialize (Hall s Hin). lia.
  - cbn in Hs, Hin. destruct Hin as [->|Hin]; [now left|]. right.
    apply StronglySorted_inv in Hs. destruct Hs as (Hs & _).
    now apply (IH _ Hs eq_refl).
Qed.

Lemma candidate_sizes_descending : StronglySorted Z.gt candidate_sizes.
Proof. rewrite candidate_sizes_eq. repeat constructor; lia. Qed.

Lemma candidate_sizes_range (s : Z) : In s candidate_sizes <-> 6 <= s <= 11.
Proof. rewrite candidate_sizes_eq. cbn. lia. Qed.

Lemma candidate_sizes_nonzero : Forall (fun s => s <> 0) candidate_sizes.
Proof. apply Forall_forall. intros s Hs. apply candidate_sizes_range in Hs. lia. Qed.

Section TextFitFacts.
Variable wrap : string -> Z -> list string.
Variable stringWidth : string -> string -> Z -> Q.

Local Abbreviation layout := (layout_at wrap).
Local Abbreviation fits := (Fits stringWidth).
Local Abbreviation accepted := (fits_at wrap stringWidth).

Lemma accepted_iff (text font_name : string) (max_w max_h : Q) (s : Z) :
  accepted text font_name max_w max_h s = true
  <-> exists g, layout text max_w s = inr g /\ fits font_name max_w max_h g.
Proof.
  unfold fits_at. destruct (layout text max_w s) as [e|g].
  - split; [discriminate|]. intros (g & Hg & _). discriminate.
  - rewrite fits_cell_iff. split.
    + intros H. now exists g.
    + intros (g' & [= <-] & H). exact H.
Qed.

(** The size search never raises.  It returns the layout at a candidate
    size: the first (largest) accepted one, or the layout at size 6 when
    none is accepted. *)
Lemma text_fit_result (text font_name : string) (max_w max_h : Q) :
  exists f ops,
    appends (text_fit wrap stringWidth text font_name max_w max_h) f ops
    /\ In (size f) candidate_sizes
    /\ layout text max_w (size f) = inr f
    /\ ((accepted text font_name max_w max_h (size f) = true
         /\ forall s, In s candidate_sizes -> size f < s ->
              accepted text font_name max_w max_h s = false)
        \/ (size f = 6
            /\ forall s, In s candidate_sizes ->
                 accepted text font_name max_w max_h s = false)).
Proof.
  destruct (fit_loop_first_fit wrap stringWidth text font_name max_w max_h
              candidate_sizes candidate_sizes_nonzero)
    as (found & ops & Happ & Hff).
  destruct found as [f|]; unfold first_fit in Hff.
  - destruct Hff as (before & after & Heq & Hlay & Hfit & Hbefore).
    exists f, (ops ++ []). split; [|split; [|split]].
    + unfold text_fit. eapply appends_bind; [exact Happ|apply appends_dret].
    + rewrite Heq. apply in_or_app. right. now left.
    + exact Hlay.
    + left. split.
      * unfold fits_at. now rewrite Hlay.
      * intros s Hs Hlt. rewrite Forall_forall in Hbefore. apply Hbefore.
        eapply descending_before;
          [apply candidate_sizes_descending|exact Heq|exact Hs|exact Hlt].
  - destruct (layout_at_ok wrap text max_w 6) as (width & _ & _ & Hlay); [lia|].
    eexists. exists (ops ++ []). split; [|split; [|split]].
    + unfold text_fit. eapply appends_bind; [exact Happ|].
      apply appends_lift. exact Hlay.
    + cbn [size]. apply candidate_sizes_range. lia.
    + exact Hlay.
    + right. split; [reflexivity|]. now apply Forall_forall.
Qed.

(** [_draw_cell_text] never raises: after the size search it sets the
    fill colour and the font of the chosen size and draws one string per
    wrapped line. *)
Lemma draw_cell_text_appends (text : string) (x y w h : Q) (is_free : bool)
    (f : fitted) (fit_ops : list canvas_op) :
  appends (text_fit wrap stringWidth text (cell_font is_free)
             (w - 2 * 4)%Q (h - 2 * 4)%Q) f fit_ops ->
  appends (_draw_cell_text wrap stringWidth text x y w h is_free) tt
    (fit_ops ++ [SetFillColor CELL_TEXT_COLOR] ++ [SetFont (cell_font is_free) (size f)]
     ++ text_ops x y w h f).
Proof.
  intros Happ. unfold _draw_cell_text.
  eapply appends_bind; [exact Happ|].
  eapply appends_bind; [apply appends_emit|].
  eapply appends_bind; [apply appends_emit|].
  apply appends_for_each_emit. intros [i line]. reflexivity.
Qed.

Lemma draw_cell_text_total (text : string) (x y w h : Q) (is_free : bool) :
  exists ops,
    appends (_draw_cell_text wrap stringWidth text x y w h is_free) tt ops.
Proof.
  destruct (text_fit_result text (cell_font is_free) (w - 2 * 4)%Q (h - 2 * 4)%Q)
    as (f & ops & Happ & _).
  eexists. apply draw_cell_text_appends. exact Happ.
Qed.
End TextFitFacts.

(* ------------------------------------------------------------------ *)
(** ** Theorems on the text fit *)

Section TextFitTheorems.
Variable wrap : string -> Z -> list string.
Variable stringWidth : string -> string -> Z -> Q.


(** C6.  For every text the size search returns, without raising, a size
    and the lines wrapped at that size; when no candidate size meets both
    requirements the size is 6, the smallest candidate, whatever the fit.
    [_draw_cell_text] as a whole never raises either. *)
Theorem text_fit_fallback (text : string) :
  (forall font_name max_w max_h cv,
     exists f cv' width,
       text_fit wrap stringWidth text font_name max_w max_h cv = inr (f, cv')
       /\ wrap_width max_w (size f) = inr width
       /\ wrapped f = wrap text width
       /\ ((forall s g, In s candidate_sizes ->
              layout_at wrap text max_w s = inr g ->
              ~ Fits stringWidth font_name max_w max_h g) ->
           size f = 6 /\ forall s, In s candidate_sizes -> 6 <= s))
  /\ (forall x y w h is_free cv,
        exists cv', _draw_cell_text wrap stringWidth text x y w h is_free cv
                    = inr (tt, cv')).
Proof.
  split.
  - intros font_name max_w max_h cv.
    destruct (text_fit_result wrap stringWidth text font_name max_w max_h)
      as (f & ops & Happ & Hin & Hlay & Hcase).
    destruct (layout_at_ok wrap text max_w (size f)) as (width & Hw & _ & Hl).
    { apply candidate_sizes_range in Hin. lia. }
    exists f. eexists. exists width. split; [apply Happ|]. split; [exact Hw|].
    split.
    + rewrite Hlay in Hl. injection Hl as Hl. rewrite Hl at 1. reflexivity.
    + intros Hnone. split.
      * destruct Hcase as [(Hf & _)|(H6 & _)]; [|exact H6].
        apply accepted_iff in Hf. destruct Hf as (g & Hg & Hfits).
        exfalso. exact (Hnone _ g Hin Hg Hfits).
      * intros s Hs. apply candidate_sizes_range in Hs. lia.
  - intros x y w h is_free cv.
    destruct (draw_cell_text_total wrap stringWidth text x y w h is_free)
      as (ops & Happ).
    eexists. apply Happ.
Qed.

(** C10.  For every text and every cell width and height, also when
    [w - 2 * padding <= 0], [_draw_cell_text] does not raise; the size
    it sets for the text lies in the closed range 6..11, and the width
    given to the word wrapper is at least 8 at every candidate size. *)
Theorem draw_cell_text_bounds (text : string) (x y w h : Q) (is_free : bool)
    (cv : Canvas) :
  exists f fit_ops width,
    text_fit wrap stringWidth text (cell_font is_free) (w - 2 * 4)%Q (h - 2 * 4)%Q cv
    = inr (f, mkCanvas (filename cv) (page cv ++ fit_ops) (pages cv))
    /\ _draw_cell_text wrap stringWidth text x y w h is_free cv
       = inr (tt, mkCanvas (filename cv)
                    (page cv ++ fit_ops ++ [SetFillColor CELL_TEXT_COLOR]
                     ++ [SetFont (cell_font is_free) (size f)]
                     ++ text_ops x y w h f)
                    (pages cv))
    /\ 6 <= size f <= 11
    /\ wrap_width (w - 2 * 4)%Q (size f) = inr width
    /\ 8 <= width
    /\ wrapped f = wrap text width
    /\ forall s, In s candidate_sizes ->
         exists width', wrap_width (w - 2 * 4)%Q s = inr width' /\ 8 <= width'.
Proof.
  destruct (text_fit_result wrap stringWidth text (cell_font is_free)
              (w - 2 * 4)%Q (h - 2 * 4)%Q)
    as (f & ops & Happ & Hin & Hlay & _).
  pose proof (proj1 (candidate_sizes_range _) Hin) as Hrange.
  destruct (layout_at_ok wrap text (w - 2 * 4)%Q (size f)) as (width & Hw & H8 & Hl);
    [lia|].
  exists f, ops, width.
  split; [apply Happ|].
  split; [apply (draw_cell_text_appends wrap stringWidth _ _ _ _ _ _ _ _ Happ)|].
  split; [exact Hrange|]. split; [exact Hw|]. split; [exact H8|]. split.
  - rewrite Hlay in Hl. injection Hl as Hl. rewrite Hl at 1. reflexivity.
  - intros s Hs. apply candidate_sizes_range in Hs.
    apply wrap_width_ok. lia.
Qed.

(** C9, amended.  For a fixed cell and the same font and measurement,
    for every pair of texts such that at each candidate size the longer
    text is accepted only if the shorter one is, the longer text never
    gets a strictly larger size than the shorter one. *)
Theorem text_fit_monotone (short long font_name : string) (max_w max_h : Q)
    (cv : Canvas) :
  (String.length short <= String.length long)%nat ->
  (forall s, In s candidate_sizes ->
     fits_at wrap stringWidth long font_name max_w max_h s = true ->
     fits_at wrap stringWidth short font_name max_w max_h s = true) ->
  exists fs fl cvs cvl,
    text_fit wrap stringWidth short font_name max_w max_h cv = inr (fs, cvs)
    /\ text_fit wrap stringWidth long font_name max_w max_h cv = inr (fl, cvl)
    /\ size fl <= size fs.
Proof.
  intros _ Hdom.
  destruct (text_fit_result wrap stringWidth short font_name max_w max_h)
    as (fs & opss & Hs & Hins & _ & Hcs).
  destruct (text_fit_result wrap stringWidth long font_name max_w max_h)
    as (fl & opsl & Hl & Hinl & _ & Hcl).
  exists fs, fl. do 2 eexists. split; [apply Hs|]. split; [apply Hl|].
  apply candidate_sizes_range in Hins as Hrs.
  destruct Hcl as [(Hfl & _)|(H6 & _)]; [|lia].
  apply Hdom in Hfl; [|exact Hinl].
  destruct Hcs as [(_ & Hlarger)|(_ & Hnone)].
  - destruct (Z.le_gt_cases (size fl) (size fs)) as [Hle|Hgt]; [exact Hle|].
    rewrite (Hlarger _ Hinl) in Hfl by lia. discriminate.
  - rewrite (Hnone _ Hinl) in Hfl. discriminate.
Qed.
End TextFitTheorems.

(* ------------------------------------------------------------------ *)
(** ** Cell geometry *)

Lemma Zq_pos (n : Z) : 1 <= n -> (0 < Zq n)%Q.
Proof.
  intros H. unfold Zq. change 0%Q with (inject_Z 0). rewrite <- Zlt_Qlt. lia.
Qed.

Lemma Zq_succ (n : Z) : (Zq (n + 1) == Zq n + 1)%Q.
Proof. unfold Zq. rewrite inject_Z_plus. reflexivity. Qed.

Lemma Zq_lt (a b : Z) : (Zq a < Zq b)%Q -> a < b.
Proof. unfold Zq. now rewrite <- Zlt_Qlt. Qed.

Lemma grid_width_pos : (0 < grid_width)%Q.
Proof. reflexivity. Qed.

Lemma grid_height_pos : (0 < grid_height)%Q.
Proof. reflexivity. Qed.

Lemma truediv_nonzero (a : Q) (n : Z) :
  1 <= n -> truediv a (Zq n) = inr (a / Zq n)%Q.
Proof.
  intros Hn. unfold truediv.
  destruct (Qeq_bool (Zq n) 0) eqn:E; [|reflexivity].
  apply Qeq_bool_eq in E. pose proof (Zq_pos n Hn). lra.
Qed.

(** A segment of length [L] cut into [n] equal steps: every point of the
    segment lies in exactly one step. *)
Lemma strip_unique (L : Q) (n : Z) (t : Q) :
  (0 < L)%Q -> 1 <= n -> (0 <= t)%Q -> (t < L)%Q ->
  exists k,
    0 <= k < n
    /\ (Zq k * (L / Zq n) <= t)%Q
    /\ (t < Zq k * (L / Zq n) + L / Zq n)%Q
    /\ forall k', (Zq k' * (L / Zq n) <= t)%Q ->
                  (t < Zq k' * (L / Zq n) + L / Zq n)%Q -> k' = k.
Proof.
  intros HL Hn Ht0 HtL.
  pose proof (Zq_pos n Hn) as Hnq.
  set (step := (L / Zq n)%Q).
  assert (Hstep : (0 < step)%Q).
  { unfold step. apply Qlt_shift_div_l; [exact Hnq|]. lra. }
  assert (HLs : (L == Zq n * step)%Q) by (unfold step; field; lra).
  set (k := Qfloor (t / step)).
  assert (Hk1 : (Zq k <= t / step)%Q) by apply Qfloor_le.
  assert (Hk2 : (t / step < Zq (k + 1))%Q) by apply Qlt_floor.
  assert (Hts : (t == (t / step) * step)%Q) by (field; lra).
  assert (Hq0 : (0 <= t / step)%Q).
  { apply Qle_shift_div_l; [exact Hstep|]. lra. }
  assert (HqL : (t / step < Zq n)%Q).
  { apply Qlt_shift_div_r; [exact Hstep|]. lra. }
  pose proof (Zq_succ k) as Hk1'.
  exists k. split; [|split; [|split]].
  - split.
    + assert (H : (Zq 0 < Zq (k + 1))%Q) by (change (Zq 0) with 0%Q; lra).
      apply Zq_lt in H. lia.
    + assert (H : (Zq k < Zq n)%Q) by lra. apply Zq_lt in H. lia.
  - set (q := (t / step)%Q) in *. clearbody q. nra.
  - set (q := (t / step)%Q) in *. clearbody q. nra.
  - intros k' H1 H2.
    assert (Ha : (Zq k' <= t / step)%Q).
    { apply Qle_shift_div_l; [exact Hstep|]. lra. }
    assert (Hb : (t / step < Zq k' + 1)%Q).
    { apply Qlt_shift_div_r; [exact Hstep|]. nra. }
    assert (Hc : (Zq k' < Zq (k + 1))%Q) by lra.
    assert (Hd : (Zq k < Zq (k' + 1))%Q) by (rewrite (Zq_succ k'); lra).
    apply Zq_lt in Hc, Hd. lia.
Qed.

Lemma Qsum_constant (l : list Q) (v : Q) :
  Forall (fun a => (a == v)%Q) l -> (Qsum l == Zq (len l) * v)%Q.
Proof.
  induction 1 as [|a l Ha Hl IH].
  - change (Zq (len (@nil Q))) with 0%Q. cbn. lra.
  - change (Qsum (a :: l)) with (a + Qsum l)%Q.
    replace (len (a :: l)) with (len l + 1)
      by (unfold len; cbn [List.length]; lia).
    cbv beta in Ha. rewrite IH, Ha, Zq_succ. lra.
Qed.

Lemma cell_rects_length (rows cols : Z) :
  0 <= rows -> 0 <= cols -> len (cell_rects rows cols) = rows * cols.
Proof.
  intros Hr Hc. unfold cell_rects, len. rewrite flat_map_concat_map.
  unfold range at 2.
  assert (H : forall l : list Z,
             List.length (List.concat (map (fun r => map (cell_rect rows cols r)
                                                       (range cols)) l))
             = (List.length l * Z.to_nat cols)%nat).
  { induction l as [|a l IH]; [reflexivity|].
    cbn [map List.concat List.length].
    rewrite length_app, length_map, range_length, IH. lia. }
  rewrite H, length_map, length_seq. nia.
Qed.

Lemma cell_rects_in (rows cols : Z) (rc : rectangle) :
  In rc (cell_rects rows cols)
  <-> exists r c, 0 <= r < rows /\ 0 <= c < cols /\ rc = cell_rect rows cols r c.
Proof.
  unfold cell_rects. rewrite in_flat_map. split.
  - intros (r & Hr & Hin). apply in_map_iff in Hin. destruct Hin as (c & <- & Hc).
    exists r, c. rewrite in_range in Hr, Hc. auto.
  - intros (r & c & Hr & Hc & ->). exists r. rewrite in_range. split; [exact Hr|].
    apply in_map. now apply in_range.
Qed.

Lemma Zq_sub (a b : Z) : (Zq (a - b) == Zq a - Zq b)%Q.
Proof.
  unfold Zq, Z.sub. rewrite inject_Z_plus, inject_Z_opp. reflexivity.
Qed.

Lemma Zq_mul (a b : Z) : (Zq (a * b) == Zq a * Zq b)%Q.
Proof. unfold Zq. now rewrite inject_Z_mult. Qed.


(* ------------------------------------------------------------------ *)
(** ** Pages *)

Lemma appends_ops_of (m : draw unit) (ops : list canvas_op) :
  appends m tt ops -> ops_of m = ops.
Proof. intros H. unfold ops_of. rewrite H. reflexivity. Qed.

Lemma cell_getitem (card : list (list string)) (r c : Z) (s : string) :
  cell card r c = Some s -> (row <- getitem card r ;; getitem row c) = inr s.
Proof.
  unfold cell. destruct (getitem card r) as [e|row]; [discriminate|]. cbn [bind].
  destruct (getitem row c) as [e|s']; [discriminate|]. now intros [= ->].
Qed.

Section DriverFacts.
Variable wrap : string -> Z -> list string.
Variable stringWidth : string -> string -> Z -> Q.

(** What [draw_cell] draws: the highlight of the free cell, the border,
    then the text. *)
Lemma draw_cell_appends (card : list (list string)) (rows cols : Z)
    (use_free_space : bool) (cell_w cell_h : Q) (r c : Z) (s : string) :
  cell card r c = Some s ->
  exists text_ops,
    appends (_draw_cell_text wrap stringWidth s (cell_x cell_w c)
               (cell_y cell_h rows r) cell_w cell_h
               (is_free_cell use_free_space rows cols r c)) tt text_ops
    /\ appends (draw_cell wrap stringWidth card rows cols use_free_space
                  cell_w cell_h r c) tt
         ((if is_free_cell use_free_space rows cols r c
           then [SetFillColor FREE_SPACE_BG;
                 Rect (cell_x cell_w c) (cell_y cell_h rows r) cell_w cell_h
                      false true]
           else [])
          ++ [SetStrokeColor GRID_LINE_COLOR; SetLineWidth 1;
              Rect (cell_x cell_w c) (cell_y cell_h rows r) cell_w cell_h
                   true false]
          ++ text_ops).
Proof.
  intros Hcell.
  destruct (draw_cell_text_total wrap stringWidth s (cell_x cell_w c)
              (cell_y cell_h rows r) cell_w cell_h
              (is_free_cell use_free_space rows cols r c)) as (text_ops & Htext).
  exists text_ops. split; [exact Htext|].
  enough (H : exists ops,
             appends (draw_cell wrap stringWidth card rows cols use_free_space
                        cell_w cell_h r c) tt ops
             /\ ops = (if is_free_cell use_free_space rows cols r c
                       then [SetFillColor FREE_SPACE_BG;
                             Rect (cell_x cell_w c) (cell_y cell_h rows r)
                                  cell_w cell_h false true]
                       else [])
                      ++ [SetStrokeColor GRID_LINE_COLOR; SetLineWidth 1;
                          Rect (cell_x cell_w c) (cell_y cell_h rows r)
                               cell_w cell_h true false]
                      ++ text_ops)
    by (destruct H as (ops & H & ->); exact H).
  unfold draw_cell.
  destruct (is_free_cell use_free_space rows cols r c).
  - eexists. split.
    + eapply appends_bind.
      { eapply appends_bind; apply appends_emit. }
      eapply appends_bind; [apply appends_emit|].
      eapply appends_bind; [apply appends_emit|].
      eapply appends_bind; [apply appends_emit|].
      eapply appends_bind; [apply appends_lift, cell_getitem; exact Hcell|].
      exact Htext.
    + reflexivity.
  - eexists. split.
    + eapply appends_bind; [apply appends_dret|].
      eapply appends_bind; [apply appends_emit|].
      eapply appends_bind; [apply appends_emit|].
      eapply appends_bind; [apply appends_emit|].
      eapply appends_bind; [apply appends_lift, cell_getitem; exact Hcell|].
      exact Htext.
    + reflexivity.
Qed.

(** The border [draw_cell] strokes for the cell [(r, c)] is the rectangle
    [cell_rect rows cols r c]. *)
Lemma draw_cell_border (card : list (list string)) (rows cols : Z)
    (use_free_space : bool) (r c : Z) (s : string) :
  cell card r c = Some s ->
  In (Rect (rect_x (cell_rect rows cols r c)) (rect_y (cell_rect rows cols r c))
           (rect_w (cell_rect rows cols r c)) (rect_h (cell_rect rows cols r c))
           true false)
     (ops_of (draw_cell wrap stringWidth card rows cols use_free_space
                (grid_width / Zq cols)%Q (grid_height / Zq rows)%Q r c)).
Proof.
  intros Hcell.
  destruct (draw_cell_appends card rows cols use_free_space
              (grid_width / Zq cols)%Q (grid_height / Zq rows)%Q r c s Hcell)
    as (text_ops & _ & H).
  rewrite (appends_ops_of _ _ H). apply in_or_app. right.
  cbn. right. right. left. reflexivity.
Qed.

(** On a card that fills the grid, [_draw_card] does not raise; it draws
    the title, the footer with the card number, then the cells. *)
Lemma draw_card_appends (card : list (list string)) (card_number : Z)
    (title : string) (rows cols : Z) (use_free_space : bool)
    (free_space_text : string) :
  1 <= rows -> 1 <= cols -> full_grid rows cols card ->
  exists grid_ops,
    appends (_draw_card wrap stringWidth card card_number title rows cols
               use_free_space free_space_text) tt
      (title_ops title ++ footer_ops card_number ++ grid_ops).
Proof.
  intros Hr Hc Hfull.
  destruct (appends_for_each
              (fun r => for_each (range cols) (fun c =>
                 draw_cell wrap stringWidth card rows cols use_free_space
                   (grid_width / Zq cols)%Q (grid_height / Zq rows)%Q r c))
              (range rows)) as (grid_ops & Hgrid).
  { intros r Hrr. apply in_range in Hrr. apply appends_for_each.
    intros c Hcc. apply in_range in Hcc.
    destruct (Hfull r c Hrr Hcc) as (s & Hs).
    destruct (draw_cell_appends card rows cols use_free_space
                (grid_width / Zq cols)%Q (grid_height / Zq rows)%Q r c s Hs)
      as (text_ops & _ & H).
    eexists. exact H. }
  exists grid_ops.
  enough (H : exists ops,
             appends (_draw_card wrap stringWidth card card_number title rows cols
                        use_free_space free_space_text) tt ops
             /\ ops = title_ops title ++ footer_ops card_number ++ grid_ops)
    by (destruct H as (ops & H & ->); exact H).
  eexists. split.
  - unfold _draw_card.
    eapply appends_bind; [apply appends_emit|].
    eapply appends_bind; [apply appends_emit|].
    eapply appends_bind; [apply appends_emit|].
    eapply appends_bind; [apply appends_emit|].
    eapply appends_bind; [apply appends_emit|].
    eapply appends_bind; [apply appends_emit|].
    eapply appends_bind; [apply appends_lift, truediv_nonzero; exact Hc|].
    eapply appends_bind; [apply appends_lift, truediv_nonzero; exact Hr|].
    exact Hgrid.
  - reflexivity.
Qed.
End DriverFacts.

Lemma range_from_length (a b : Z) : len (range_from a b) = Z.max 0 (b - a).
Proof. unfold range_from, len. rewrite length_map, range_length. lia. Qed.

Lemma range_from_nth_error (a b n : Z) :
  a <= n < b -> nth_error (range_from a b) (Z.to_nat (n - a)) = Some n.
Proof.
  intros Hn. unfold range_from.
  rewrite nth_error_map, range_nth_error by lia. cbn. f_equal. lia.
Qed.

Lemma in_range_from (a b n : Z) : In n (range_from a b) <-> a <= n < b.
Proof.
  unfold range_from. rewrite in_map_iff. split.
  - intros (i & <- & Hi). apply in_range in Hi. lia.
  - intros Hn. exists (n - a). split; [lia|]. apply in_range. lia.
Qed.

Section RunFacts.
Variable wrap : string -> Z -> list string.
Variable stringWidth : string -> string -> Z -> Q.
Variable rng : Z -> list nat.
Variable items : list string.
Variables rows cols : Z.
Variable title : string.
Variable use_free_space : bool.
Variable free_space_text : string.

Hypothesis rows_pos : 1 <= rows.
Hypothesis cols_pos : 1 <= cols.
Hypothesis enough_items : cells_needed use_free_space rows cols <= len items.

Local Abbreviation card_nr :=
  (card_number_card rng items rows cols use_free_space free_space_text).
Local Abbreviation page_nr :=
  (page_ops wrap stringWidth rng items rows cols title use_free_space
     free_space_text).

Lemma card_of_full_grid (chosen : list string) :
  full_grid rows cols (card_of chosen rows cols use_free_space free_space_text).
Proof.
  intros r c Hr Hc. eexists. apply card_of_cell; assumption.
Qed.

Lemma page_ops_footer (n : Z) :
  exists grid_ops, page_nr n = title_ops title ++ footer_ops n ++ grid_ops.
Proof.
  destruct (draw_card_appends wrap stringWidth (card_nr n) n title
              rows cols use_free_space free_space_text rows_pos cols_pos
              (card_of_full_grid _)) as (grid_ops & H).
  exists grid_ops. now apply appends_ops_of.
Qed.

Lemma card_page_run (n : Z) (cv : Canvas) :
  sample_choice (List.length items) (cells_needed use_free_space rows cols) (rng n) ->
  page cv = [] ->
  card_page wrap stringWidth rng items rows cols title use_free_space
    free_space_text n cv
  = inr (tt, mkCanvas (filename cv) [] (pages cv ++ [page_nr n])).
Proof.
  intros Hp Hpage. unfold card_page, dbind, lift.
  rewrite generate_card_closed by assumption.
  destruct (draw_card_appends wrap stringWidth (card_nr n) n title
              rows cols use_free_space free_space_text rows_pos cols_pos
              (card_of_full_grid _)) as (grid_ops & H).
  unfold page_ops. rewrite (appends_ops_of _ _ H).
  fold (card_nr n). rewrite H. unfold showPage. cbn.
  now rewrite Hpage.
Qed.

Lemma pages_run (ns : list Z) (cv : Canvas) :
  (forall n, In n ns ->
     sample_choice (List.length items) (cells_needed use_free_space rows cols)
       (rng n)) ->
  page cv = [] ->
  for_each ns (card_page wrap stringWidth rng items rows cols title
                 use_free_space free_space_text) cv
  = inr (tt, mkCanvas (filename cv) [] (pages cv ++ map page_nr ns)).
Proof.
  revert cv. induction ns as [|n ns IH]; intros cv Hp Hpage.
  - cbn. unfold dret. rewrite app_nil_r. destruct cv; cbn in *. now subst.
  - cbn [for_each map]. unfold dbind at 1.
    rewrite card_page_run by (try apply Hp; try assumption; now left).
    rewrite IH by (try reflexivity; intros; apply Hp; now right).
    cbn. now rewrite <- app_assoc.
Qed.

Lemma generate_pdf_run (num_cards : Z) (output : string) (w : world) :
  (forall n, 1 <= n <= num_cards ->
     sample_choice (List.length items) (cells_needed use_free_space rows cols)
       (rng n)) ->
  generate_pdf wrap stringWidth rng items rows cols num_cards title
    use_free_space free_space_text output w
  = (inr tt,
     mkWorld (stderr w) (stdout w ++ [saved_message num_cards output])
       ((output, map page_nr (range_from 1 (num_cards + 1))) :: files w)).
Proof.
  intros Hp. unfold generate_pdf.
  destruct (Z.ltb_spec (len items) (cells_needed use_free_space rows cols));
    [lia|].
  rewrite pages_run; [reflexivity| |reflexivity].
  intros n Hn. apply in_range_from in Hn. apply Hp. lia.
Qed.
End RunFacts.

(* ------------------------------------------------------------------ *)
(** ** Theorems on the driver *)



(** C8.  For every [num_cards >= 1] the run writes one document of exactly
    [num_cards] pages.  For each [n] from 1 to [num_cards], page [n] is the
    drawing of the card generated from the [n]-th sample, and after the
    title it draws the footer string [Card #n]. *)
Theorem pages_numbered
    (wrap : string -> Z -> list string) (stringWidth : string -> string -> Z -> Q)
    (rng : Z -> list nat) (items : list string) (rows cols num_cards : Z)
    (title : string) (use_free_space : bool) (free_space_text output : string)
    (w : world) :
  1 <= num_cards -> 1 <= rows -> 1 <= cols ->
  cells_needed use_free_space rows cols <= len items ->
  (forall n, 1 <= n <= num_cards ->
     sample_choice (List.length items)
       (cells_needed use_free_space rows cols) (rng n)) ->
  exists doc,
    generate_pdf wrap stringWidth rng items rows cols num_cards title
      use_free_space free_space_text output w
    = (inr tt,
       mkWorld (stderr w) (stdout w ++ [saved_message num_cards output])
         ((output, doc) :: files w))
    /\ len doc = num_cards
    /\ forall n, 1 <= n <= num_cards ->
         exists card grid_ops,
           generate_card (rng n) items rows cols use_free_space free_space_text
           = inr card
           /\ nth_error doc (Z.to_nat (n - 1))
              = Some (ops_of (_draw_card wrap stringWidth card n title rows cols
                                use_free_space free_space_text))
           /\ ops_of (_draw_card wrap stringWidth card n title rows cols
                        use_free_space free_space_text)
              = title_ops title
                ++ [SetFont "Helvetica" FOOTER_FONT_SIZE;
                    SetFillColor HEADER_COLOR;
                    DrawCentredString (PAGE_WIDTH / 2) MARGIN
                      ("Card #" ++ str n)%string]
                ++ grid_ops.
Proof.
  intros Hcards Hr Hc Hn Hp. eexists. split; [now apply generate_pdf_run|].
  split.
  - unfold len. rewrite length_map. fold (len (range_from 1 (num_cards + 1))).
    rewrite range_from_length. lia.
  - intros n Hrange.
    destruct (page_ops_footer wrap stringWidth rng items rows cols title
                use_free_space free_space_text Hr Hc n) as (grid_ops & Hops).
    eexists. exists grid_ops. split; [apply generate_card_closed; auto|].
    split; [|exact Hops].
    rewrite nth_error_map, range_from_nth_error by lia. reflexivity.
Qed.

Lemma pages_numbered_witness :
  exists doc grid_ops,
    generate_pdf wrap_token helvetica_width
      (fun n => if n =? 2 then [3; 2; 1; 0]%nat else [0; 1; 2; 3]%nat)
      ["a"; "b"; "c"; "d"] 2 2 3 "BINGO" false "FREE" "bingo_cards.pdf"
      (mkWorld [] [] [])
    = (inr tt,
       mkWorld [] ["Saved 3 bingo card(s) to bingo_cards.pdf"]
         [("bingo_cards.pdf", doc)])
    /\ len doc = 3
    /\ nth_error doc 1
       = Some (title_ops "BINGO"
               ++ [SetFont "Helvetica" 10; SetFillColor HEADER_COLOR;
                   DrawCentredString (PAGE_WIDTH / 2) MARGIN "Card #2"]
               ++ grid_ops).
Proof.
  destruct (pages_numbered wrap_token helvetica_width
              (fun n => if n =? 2 then [3; 2; 1; 0]%nat else [0; 1; 2; 3]%nat)
              ["a"; "b"; "c"; "d"] 2 2 3 "BINGO" false "FREE" "bingo_cards.pdf"
              (mkWorld [] [] []))
    as (doc & Hrun & Hlen & Hpages).
  - lia.
  - lia.
  - lia.
  - vm_compute. discriminate.
  - intros n _. destruct (n =? 2); sample_choice_by_computation.
  - destruct (Hpages 2) as (card & grid_ops & _ & Hnth & Hops); [lia|].
    exists doc, grid_ops. split; [exact Hrun|]. split; [exact Hlen|].
    change (Z.to_nat (2 - 1)) with 1%nat in Hnth.
    rewrite Hnth. f_equal. exact Hops.
Defined.

(* ------------------------------------------------------------------ *)
(** ** Examples on a 5 x 5 card *)


(** C9 as stated fails.  In a cell of the 5 x 5 grid, set in Helvetica, a
    word of sixteen [W] only fits at size 6, while a word of seventeen [i],
    a longer string, is set at size 11. *)
Lemma longer_text_larger_size :
  (String.length "WWWWWWWWWWWWWWWW" < String.length "iiiiiiiiiiiiiiiii")%nat
  /\ exists fs fl cvs cvl,
       text_fit wrap_token helvetica_width "WWWWWWWWWWWWWWWW" "Helvetica"
         (grid_width / 5 - 2 * 4)%Q (grid_height / 5 - 2 * 4)%Q
         (mkCanvas "bingo_cards.pdf" [] [])
       = inr (fs, cvs)
       /\ text_fit wrap_token helvetica_width "iiiiiiiiiiiiiiiii" "Helvetica"
            (grid_width / 5 - 2 * 4)%Q (grid_height / 5 - 2 * 4)%Q
            (mkCanvas "bingo_cards.pdf" [] [])
          = inr (fl, cvl)
       /\ size fs = 6 /\ size fl = 11 /\ size fs < size fl.
Proof.
  split; [cbn; lia|].
  do 4 eexists. split; [vm_compute; reflexivity|].
  split; [vm_compute; reflexivity|].
  cbn. repeat split.
Qed.

Lemma text_fit_monotone_witness :
  exists fs fl cvs cvl,
    text_fit wrap_token helvetica_width "WWWWWWWW" "Helvetica"
      (grid_width / 5 - 2 * 4)%Q (grid_height / 5 - 2 * 4)%Q
      (mkCanvas "bingo_cards.pdf" [] [])
    = inr (fs, cvs)
    /\ text_fit wrap_token helvetica_width "WWWWWWWWWWWWWWWW" "Helvetica"
         (grid_width / 5 - 2 * 4)%Q (grid_height / 5 - 2 * 4)%Q
         (mkCanvas "bingo_cards.pdf" [] [])
       = inr (fl, cvl)
    /\ size fl <= size fs.
Proof.
  apply text_fit_monotone.
  - cbn. lia.
  - intros s Hs _. rewrite candidate_sizes_eq in Hs. cbn in Hs.
    destruct Hs as [<-|[<-|[<-|[<-|[<-|[<-|[]]]]]]]; vm_compute; reflexivity.
Defined.

(** A word that no candidate size can fit: forty [W] in a cell of the 5 x 5
    grid.  The search returns size 6 with the word cut into two lines. *)
Example unbreakable_word_falls_back :
  exists f cv,
    text_fit wrap_token helvetica_width
      "WWWWWWWWWWWWWWWWWWWWWWWWWWWWWWWWWWWWWWWW" "Helvetica"
      (grid_width / 5 - 2 * 4)%Q (grid_height / 5 - 2 * 4)%Q
      (mkCanvas "bingo_cards.pdf" [] [])
    = inr (f, cv)
    /\ size f = 6
    /\ wrapped f = ["WWWWWWWWWWWWWWWWWWWWWWWWWWWWWW"; "WWWWWWWWWW"]
    /\ fits_cell helvetica_width "Helvetica"
         (grid_width / 5 - 2 * 4)%Q (grid_height / 5 - 2 * 4)%Q f = false.
Proof.
  do 2 eexists. split; [vm_compute; reflexivity|]. repeat split.
Qed.

(* ================================================================== *)
(** * Further properties *)

(* ------------------------------------------------------------------ *)
(** ** The item loader *)
Lemma linebreak_is_space (c : ascii) : is_linebreak c = true -> is_space c = true.
Proof.
  unfold is_linebreak, is_space. cbn [existsb].
  repeat match goal with |- context [N.eqb ?a ?b] => destruct (N.eqb a b) end;
    cbn; congruence.
Qed.

Lemma lstrip_first (s : string) :
  match first_char (lstrip s) with
  | Some c => is_space c = false
  | None => lstrip s = EmptyString
  end.
Proof.
  induction s as [|c s IH]; [reflexivity|]. cbn [lstrip].
  destruct (is_space c) eqn:E; [exact IH|]. cbn. exact E.
Qed.

Lemma rstrip_first (s : string) (c : ascii) :
  first_char s = Some c -> is_space c = false -> first_char (rstrip s) = Some c.
Proof.
  destruct s as [|c' s]; [discriminate|]. cbn [first_char rstrip]. intros [= ->] E.
  destruct (rstrip s); [rewrite E|]; reflexivity.
Qed.

Lemma last_char_none (s : string) : last_char s = None -> s = EmptyString.
Proof.
  induction s as [|c s IH]; [reflexivity|]. cbn [last_char].
  destruct s; [discriminate|]. intros H. specialize (IH H). discriminate.
Qed.

Lemma rstrip_last (s : string) (c : ascii) :
  last_char (rstrip s) = Some c -> is_space c = false.
Proof.
  revert c. induction s as [|a s IH]; intros c; [discriminate|]. cbn [rstrip].
  destruct (rstrip s) as [|c' kept] eqn:E.
  - destruct (is_space a) eqn:Ea; [discriminate|]. cbn. now intros [= <-].
  - cbn [last_char] in *. apply IH.
Qed.

Lemma lstrip_forall (p : ascii -> bool) (s : string) :
  string_forall p s = true -> string_forall p (lstrip s) = true.
Proof.
  induction s as [|c s IH]; [reflexivity|]. cbn [lstrip string_forall].
  intros H. apply andb_true_iff in H. destruct H as (Hc & Hs).
  destruct (is_space c); [now apply IH|]. cbn. now rewrite Hc, Hs.
Qed.

Lemma rstrip_forall (p : ascii -> bool) (s : string) :
  string_forall p s = true -> string_forall p (rstrip s) = true.
Proof.
  induction s as [|c s IH]; [reflexivity|]. cbn [rstrip string_forall].
  intros H. apply andb_true_iff in H. destruct H as (Hc & Hs).
  specialize (IH Hs).
  destruct (rstrip s) as [|c' kept].
  - destruct (is_space c); cbn; [reflexivity|now rewrite Hc].
  - cbn [string_forall] in *. now rewrite Hc, IH.
Qed.

Lemma splitlines_no_linebreak (text : string) :
  Forall (fun line => string_forall (fun c => negb (is_linebreak c)) line = true)
         (splitlines text).
Proof.
  assert (H : forall n text, (String.length text <= n)%nat ->
            Forall (fun line => string_forall (fun c => negb (is_linebreak c)) line = true)
                   (splitlines text)).
  { induction n as [|n IH]; intros [|c rest] Hlen; try (constructor; fail);
      cbn in Hlen; [lia|].
    cbn [splitlines]. destruct (is_linebreak c) eqn:E.
    - constructor; [reflexivity|].
      destruct (Ascii.eqb c CR); [|apply IH; lia].
      destruct rest as [|c' rest']; [constructor|].
      destruct (Ascii.eqb c' LF); apply IH; cbn in *; lia.
    - specialize (IH rest ltac:(lia)).
      destruct (splitlines rest) as [|line lines].
      + constructor; [|constructor]. cbn [string_forall]. now rewrite E.
      + inversion IH as [|? ? Hl Hls]; subst. constructor; [|assumption].
        cbn [string_forall]. now rewrite E, Hl. }
  now apply (H (String.length text)).
Qed.

Lemma strip_clean (line : string) :
  string_forall (fun c => negb (is_linebreak c)) line = true ->
  nonempty (strip line) = true -> starts_with_hash (strip line) = false ->
  clean_item (strip line).
Proof.
  intros Hlb Hne Hhash. unfold strip in *.
  pose proof (lstrip_first line) as Hf.
  destruct (first_char (lstrip line)) as [c|] eqn:Ef.
  - pose proof (rstrip_first _ _ Ef Hf) as Hf'.
    split; [|split].
    + exists c. split; [exact Hf'|]. split; [exact Hf|].
      destruct (rstrip (lstrip line)) as [|c' s]; [discriminate|].
      cbn in Hf', Hhash. injection Hf' as ->. intros ->. cbn in Hhash. discriminate.
    + destruct (last_char (rstrip (lstrip line))) as [c'|] eqn:El.
      * exists c'. split; [reflexivity|]. now apply (rstrip_last (lstrip line)).
      * apply last_char_none in El. rewrite El in Hne. discriminate.
    + now apply rstrip_forall, lstrip_forall.
  - rewrite Hf in Hne. discriminate.
Qed.

Lemma collect_items_clean (lines : list string) :
  Forall (fun line => string_forall (fun c => negb (is_linebreak c)) line = true) lines ->
  Forall clean_item (collect_items lines).
Proof.
  induction 1 as [|line lines Hline Hlines IH]; [constructor|].
  cbn [collect_items].
  destruct (nonempty (strip line)) eqn:Hne; cbn [andb]; [|exact IH].
  destruct (starts_with_hash (strip line)) eqn:Hh; cbn [negb]; [exact IH|].
  constructor; [now apply strip_clean|exact IH].
Qed.

(* strip fixed points *)
Lemma rstrip_fixed (s : string) (c : ascii) :
  last_char s = Some c -> is_space c = false -> rstrip s = s.
Proof.
  induction s as [|a s IH]; [discriminate|]. cbn [last_char rstrip].
  destruct s as [|b s'].
  - intros [= ->] E. cbn [rstrip]. now rewrite E.
  - intros Hl E. rewrite (IH Hl E). reflexivity.
Qed.

Lemma strip_fixed (s : string) : clean_item s -> strip s = s.
Proof.
  intros ((c & Hf & Hc & _) & (c' & Hl & Hc') & _). unfold strip.
  destruct s as [|a s]; [discriminate|]. cbn in Hf. injection Hf as ->.
  cbn [lstrip]. rewrite Hc. now apply (rstrip_fixed _ c').
Qed.

Lemma collect_items_fixed (items : list string) :
  Forall clean_item items -> collect_items items = items.
Proof.
  induction 1 as [|s items Hs Hitems IH]; [reflexivity|].
  cbn [collect_items]. rewrite (strip_fixed s Hs).
  destruct Hs as ((c & Hf & Hc & Hh) & _).
  destruct s as [|a s]; [discriminate|]. cbn in Hf. injection Hf as ->.
  cbn [nonempty starts_with_hash andb].
  destruct (Ascii.eqb_spec c "#"); [contradiction|]. cbn [negb]. now rewrite IH.
Qed.

(** *** Reading back a written file *)

Lemma string_app_assoc (a b c : string) : ((a ++ b) ++ c = a ++ (b ++ c))%string.
Proof. induction a as [|x a IH]; cbn; [reflexivity|now rewrite IH]. Qed.

Lemma string_app_nil_r (a : string) : (a ++ "" = a)%string.
Proof. induction a as [|x a IH]; cbn; [reflexivity|now rewrite IH]. Qed.

Lemma not_linebreak_not_CR (c : ascii) : is_linebreak c = false -> Ascii.eqb c CR = false.
Proof.
  intros H. destruct (Ascii.eqb_spec c CR) as [->|]; [discriminate|reflexivity].
Qed.

Lemma not_linebreak_not_LF (c : ascii) : is_linebreak c = false -> Ascii.eqb c LF = false.
Proof.
  intros H. destruct (Ascii.eqb_spec c LF) as [->|]; [discriminate|reflexivity].
Qed.

Lemma universal_newlines_line (s t : string) :
  no_linebreak s ->
  universal_newlines (s ++ t) = (s ++ universal_newlines t)%string.
Proof.
  unfold no_linebreak. induction s as [|c s IH]; intros H; [reflexivity|].
  cbn [string_forall] in H. apply andb_true_iff in H. destruct H as (Hc & Hs).
  apply negb_true_iff in Hc.
  cbn [append universal_newlines]. rewrite (not_linebreak_not_CR c Hc).
  now rewrite IH.
Qed.

Lemma universal_newlines_ending (sep t : string) :
  In sep line_endings -> starts_in_line t ->
  universal_newlines (sep ++ t) = String LF (universal_newlines t).
Proof.
  intros Hsep Ht. cbn in Hsep. destruct Hsep as [<-|[<-|[<-|[]]]].
  - reflexivity.
  - reflexivity.
  - cbn [append universal_newlines]. change (Ascii.eqb CR CR) with true. cbv iota.
    destruct t as [|c t]; [reflexivity|]. cbn in Ht.
    now rewrite (not_linebreak_not_LF c Ht).
Qed.

Lemma splitlines_line (s t : string) :
  no_linebreak s ->
  splitlines (s ++ String LF t) = s :: splitlines t.
Proof.
  unfold no_linebreak. induction s as [|c s IH]; intros H; [reflexivity|].
  cbn [string_forall] in H. apply andb_true_iff in H. destruct H as (Hc & Hs).
  apply negb_true_iff in Hc.
  cbn [append splitlines]. rewrite Hc, (IH Hs). reflexivity.
Qed.

Lemma splitlines_last_line (s : string) :
  no_linebreak s -> s <> EmptyString -> splitlines s = [s].
Proof.
  unfold no_linebreak. induction s as [|c s IH]; intros H Hne; [contradiction|].
  cbn [string_forall] in H. apply andb_true_iff in H. destruct H as (Hc & Hs).
  apply negb_true_iff in Hc. cbn [splitlines]. rewrite Hc.
  destruct s as [|c' s]; [reflexivity|]. rewrite (IH Hs); [reflexivity|discriminate].
Qed.

Lemma clean_item_no_linebreak (s : string) : clean_item s -> no_linebreak s.
Proof. now intros (_ & _ & H). Qed.

Lemma clean_item_starts_in_line (s t : string) :
  clean_item s -> starts_in_line (s ++ t).
Proof.
  intros ((c & Hf & Hc & _) & _). destruct s as [|a s]; [discriminate|].
  cbn in Hf. injection Hf as ->. cbn [append starts_in_line].
  destruct (is_linebreak c) eqn:E; [|reflexivity].
  apply linebreak_is_space in E. congruence.
Qed.

Lemma clean_item_nonempty (s : string) : clean_item s -> s <> EmptyString.
Proof. intros ((c & Hf & _) & _) ->. discriminate. Qed.

Lemma unlines_starts_in_line (sep : string) (items : list string) (t : string) :
  Forall clean_item items -> open_line t ->
  starts_in_line (unlines sep items ++ t).
Proof.
  intros Hitems Ht. destruct Hitems as [|s items Hs _].
  - cbn. destruct Ht as [->|Ht]; [exact I|].
    rewrite <- (string_app_nil_r t). now apply clean_item_starts_in_line.
  - cbn [unlines]. rewrite string_app_assoc. now apply clean_item_starts_in_line.
Qed.

Lemma universal_newlines_unlines (sep : string) (items : list string) (t : string) :
  In sep line_endings -> Forall clean_item items -> open_line t ->
  universal_newlines (unlines sep items ++ t)
  = (unlines (String LF EmptyString) items ++ t)%string.
Proof.
  intros Hsep Hitems Ht. induction Hitems as [|s items Hs Hitems IH].
  - cbn [unlines append]. destruct Ht as [->|Ht]; [reflexivity|].
    rewrite <- (string_app_nil_r t) at 1.
    rewrite universal_newlines_line by now apply clean_item_no_linebreak.
    cbn. now rewrite string_app_nil_r.
  - cbn [unlines]. rewrite !string_app_assoc.
    rewrite universal_newlines_line by now apply clean_item_no_linebreak.
    rewrite universal_newlines_ending;
      [|exact Hsep|now apply unlines_starts_in_line].
    rewrite IH. reflexivity.
Qed.

Lemma splitlines_unlines (items : list string) (t : string) :
  Forall clean_item items -> open_line t ->
  splitlines (unlines (String LF EmptyString) items ++ t)
  = items ++ (match t with EmptyString => [] | _ => [t] end).
Proof.
  intros Hitems Ht. induction Hitems as [|s items Hs Hitems IH].
  - cbn [unlines append app]. destruct Ht as [->|Ht]; [reflexivity|].
    rewrite splitlines_last_line;
      [|now apply clean_item_no_linebreak|now apply clean_item_nonempty].
    destruct t; [now apply clean_item_nonempty in Ht|reflexivity].
  - cbn [unlines]. rewrite !string_app_assoc. cbn [append].
    rewrite splitlines_line by now apply clean_item_no_linebreak.
    rewrite IH. reflexivity.
Qed.

Lemma join_unlines (sep : string) (items : list string) (t : string) :
  join sep (items ++ [t]) = (unlines sep items ++ t)%string.
Proof.
  induction items as [|s items IH]; [reflexivity|].
  cbn [app unlines]. rewrite !string_app_assoc, <- IH.
  destruct (items ++ [t]) eqn:E; [destruct items; discriminate|reflexivity].
Qed.

Lemma parse_written (sep : string) (items : list string) :
  In sep line_endings -> Forall clean_item items ->
  collect_items (splitlines (universal_newlines (join sep items))) = items
  /\ collect_items (splitlines (universal_newlines (unlines sep items))) = items.
Proof.
  intros Hsep Hitems. split.
  - destruct items as [|s0 rest]; [reflexivity|].
    destruct (@exists_last _ (s0 :: rest)) as (init & t & Heq); [discriminate|].
    rewrite Heq in *. clear Heq s0 rest.
    apply Forall_app in Hitems as Hparts. destruct Hparts as (Hinit & Ht).
    inversion Ht as [|? ? Hclean _]; subst.
    rewrite join_unlines, universal_newlines_unlines by (auto; now right).
    rewrite splitlines_unlines by (auto; now right).
    destruct t; [now apply clean_item_nonempty in Hclean|].
    now apply collect_items_fixed.
  - rewrite <- (string_app_nil_r (unlines sep items)).
    rewrite universal_newlines_unlines by (auto; now left).
    rewrite splitlines_unlines by (auto; now left).
    rewrite app_nil_r. now apply collect_items_fixed.
Qed.

(** *** Texts put one after the other *)

Lemma splitlines_universal_newlines (raw : string) :
  splitlines (universal_newlines raw) = splitlines raw.
Proof.
  assert (H : forall n raw, (String.length raw <= n)%nat ->
            splitlines (universal_newlines raw) = splitlines raw).
  { induction n as [|n IH]; intros [|c rest] Hlen; try reflexivity;
      cbn in Hlen; [lia|].
    cbn [universal_newlines]. destruct (Ascii.eqb_spec c CR) as [->|Hc].
    - change (splitlines (String CR rest))
        with (EmptyString :: match rest with
                             | String c' rest' =>
                                 if Ascii.eqb c' LF then splitlines rest'
                                 else splitlines rest
                             | EmptyString => splitlines rest
                             end).
      change (splitlines (String LF ?x)) with (EmptyString :: splitlines x).
      f_equal. destruct rest as [|c' rest']; [reflexivity|].
      destruct (Ascii.eqb c' LF); apply IH; cbn in *; lia.
    - cbn [splitlines]. destruct (is_linebreak c).
      + apply Ascii.eqb_neq in Hc. rewrite Hc. f_equal. apply IH. lia.
      + rewrite IH by lia. reflexivity. }
  now apply (H (String.length raw)).
Qed.

Lemma splitlines_nil (s : string) : splitlines s = [] -> s = EmptyString.
Proof.
  destruct s as [|c s]; [reflexivity|]. cbn [splitlines].
  destruct (is_linebreak c); [discriminate|].
  destruct (splitlines s); discriminate.
Qed.

(** Lines of two texts put one after the other with a line feed between:
    at most one empty line appears at the seam. *)
Lemma splitlines_seam (a b : string) :
  exists pad,
    (pad = [] \/ pad = [EmptyString])
    /\ splitlines (a ++ String LF b) = splitlines a ++ pad ++ splitlines b.
Proof.
  assert (H : forall n a, (String.length a <= n)%nat ->
            exists pad,
              (pad = [] \/ pad = [EmptyString])
              /\ splitlines (a ++ String LF b) = splitlines a ++ pad ++ splitlines b).
  { induction n as [|n IH]; intros [|c a'] Hlen;
      try (exists [EmptyString]; split; [now right|reflexivity]);
      cbn in Hlen; [lia|].
    cbn [append splitlines]. destruct (is_linebreak c) eqn:Ebreak.
    - destruct (Ascii.eqb c CR).
      + destruct a' as [|c' a''].
        * exists []. split; [now left|]. cbn [append].
          change (Ascii.eqb LF LF) with true. reflexivity.
        * cbn [append]. destruct (Ascii.eqb c' LF).
          -- destruct (IH a'') as (pad & Hpad & Heq); [cbn in *; lia|].
             exists pad. split; [exact Hpad|]. now rewrite Heq.
          -- destruct (IH (String c' a'')) as (pad & Hpad & Heq); [cbn in *; lia|].
             exists pad. split; [exact Hpad|]. cbn [append] in Heq. now rewrite Heq.
      + destruct (IH a') as (pad & Hpad & Heq); [lia|].
        exists pad. split; [exact Hpad|]. now rewrite Heq.
    - destruct a' as [|c' a''].
      + exists []. split; [now left|]. reflexivity.
      + destruct (IH (String c' a'')) as (pad & Hpad & Heq); [cbn in *; lia|].
        exists pad. split; [exact Hpad|]. rewrite Heq.
        destruct (splitlines (String c' a'')) as [|l ls] eqn:El;
          [apply splitlines_nil in El; discriminate|]. reflexivity. }
  now apply (H (String.length a)).
Qed.

Lemma collect_items_app (l1 l2 : list string) :
  collect_items (l1 ++ l2) = collect_items l1 ++ collect_items l2.
Proof.
  induction l1 as [|line l1 IH]; [reflexivity|]. cbn [app collect_items].
  destruct (nonempty (strip line) && negb (starts_with_hash (strip line)));
    cbn [app]; now rewrite IH.
Qed.

Lemma parse_concat (a b : string) :
  collect_items (splitlines (universal_newlines (a ++ String LF b)))
  = collect_items (splitlines (universal_newlines a))
    ++ collect_items (splitlines (universal_newlines b)).
Proof.
  rewrite !splitlines_universal_newlines.
  destruct (splitlines_seam a b) as (pad & Hpad & ->).
  rewrite !collect_items_app. destruct Hpad as [->| ->]; reflexivity.
Qed.

(** *** Theorems on [load_items] *)

(** X1.  Whatever the file holds, [load_items] leaves the world as it is
    and every item it returns is clean: not empty, without white space at
    either end, not starting with [#], and without a line boundary. *)
Theorem load_items_clean (fs : string -> option string) (filepath : string)
    (w w' : world) (items : list string) :
  load_items fs filepath w = (inr items, w') ->
  w' = w /\ Forall clean_item items.
Proof.
  unfold load_items. destruct (fs filepath) as [raw|]; [|discriminate].
  intros [= <- <-]. split; [reflexivity|].
  apply collect_items_clean, splitlines_no_linebreak.
Qed.

(** X2.  Reading back a written list: if the file holds clean items, one
    per line, separated or terminated by LF, CR LF or CR, [load_items]
    returns exactly these items, in order. *)
Theorem load_items_round_trip (fs : string -> option string) (filepath sep : string)
    (items : list string) (w : world) :
  In sep line_endings -> Forall clean_item items ->
  fs filepath = Some (join sep items) \/ fs filepath = Some (unlines sep items) ->
  load_items fs filepath w = (inr items, w).
Proof.
  intros Hsep Hitems Hfile. unfold load_items.
  destruct (parse_written sep items Hsep Hitems) as (Hjoin & Hlines).
  destruct Hfile as [-> | ->]; [now rewrite Hjoin|now rewrite Hlines].
Qed.

(** X3.  The items of two texts joined by a line feed are the items of
    the first followed by the items of the second. *)
Theorem load_items_concat (fs : string -> option string)
    (first second both : string) (a b : string) (w : world) :
  fs first = Some a -> fs second = Some b ->
  fs both = Some (a ++ String LF b)%string ->
  exists items_a items_b,
    load_items fs first w = (inr items_a, w)
    /\ load_items fs second w = (inr items_b, w)
    /\ load_items fs both w = (inr (items_a ++ items_b), w).
Proof.
  intros Ha Hb Hboth. unfold load_items. rewrite Ha, Hb, Hboth.
  do 2 eexists. split; [reflexivity|]. split; [reflexivity|].
  now rewrite parse_concat.
Qed.

Lemma parse_skipped_line (line : string) :
  skipped_line line ->
  collect_items (splitlines (universal_newlines line)) = [].
Proof.
  intros (Hnb & Hskip). rewrite splitlines_universal_newlines.
  destruct line as [|c line]; [reflexivity|].
  rewrite splitlines_last_line by (auto; discriminate).
  cbn [collect_items].
  destruct Hskip as [-> | ->]; [reflexivity|]. now rewrite andb_false_r.
Qed.

(** X4.  A blank line or a comment line (first character after the leading
    white space is [#]) put between two parts of a file does not change
    what [load_items] returns. *)
Theorem load_items_skips_line (fs : string -> option string)
    (plain commented : string) (a b line : string) (w : world) :
  skipped_line line ->
  fs plain = Some (a ++ String LF b)%string ->
  fs commented = Some (a ++ String LF (line ++ String LF b))%string ->
  load_items fs commented w = load_items fs plain w.
Proof.
  intros Hline Hplain Hcommented. unfold load_items. rewrite Hplain, Hcommented.
  rewrite !parse_concat, (parse_skipped_line line Hline). reflexivity.
Qed.

(* ------------------------------------------------------------------ *)
(** ** The entry point *)

(** X5.  With fewer than one row, column or card, [main] stops through
    [parser.error] with exit status 2 and one message, whatever files exist:
    nothing is printed on the output stream and no document is written. *)
Theorem main_rejects_configuration
    (wrap : string -> Z -> list string) (stringWidth : string -> string -> Z -> Q)
    (rng : Z -> list nat) (fs : string -> option string) (args : Args.t)
    (w : world) :
  Args.rows args < 1 \/ Args.cols args < 1 \/ Args.cards args < 1 ->
  exists message,
    main wrap stringWidth rng fs args w
    = (inl (SystemExit 2), mkWorld (stderr w ++ [message]) (stdout w) (files w)).
Proof.
  intros Hbad. unfold main, parser_error.
  destruct (Z.ltb_spec (Args.rows args) 1); cbn [orb]; [eexists; reflexivity|].
  destruct (Z.ltb_spec (Args.cols args) 1); [eexists; reflexivity|].
  destruct (Z.ltb_spec (Args.cards args) 1); [eexists; reflexivity|]. lia.
Qed.

(** X6.  With a valid configuration, [main] exits with status 1 and one
    message when the item file does not exist, and also when the file holds
    fewer items than one card needs (the count is taken after blank and
    comment lines are dropped) and the dimensions and the required count
    are within the digit limit of integer formatting; the second message
    reads [Error: need at least N unique items to fill a RxC card, but only
    M were provided.].  In both cases no document is written. *)
Theorem main_exits_on_bad_input
    (wrap : string -> Z -> list string) (stringWidth : string -> string -> Z -> Q)
    (rng : Z -> list nat) (fs : string -> option string) (args : Args.t)
    (w : world) :
  1 <= Args.rows args -> 1 <= Args.cols args -> 1 <= Args.cards args ->
  (fs (Args.items_file args) = None ->
   main wrap stringWidth rng fs args w
   = (inl (SystemExit 1),
      mkWorld
        (stderr w
         ++ [("Error: file not found: " ++ Args.items_file args)%string])
        (stdout w) (files w)))
  /\ (forall raw items,
        fs (Args.items_file args) = Some raw ->
        items = collect_items (splitlines (universal_newlines raw)) ->
        len items < cells_needed (Args.free_space args) (Args.rows args)
                      (Args.cols args) ->
        printable (cells_needed (Args.free_space args) (Args.rows args)
                     (Args.cols args)) ->
        printable (Args.rows args) -> printable (Args.cols args) ->
        main wrap stringWidth rng fs args w
        = (inl (SystemExit 1),
           mkWorld
             (stderr w
              ++ [("Error: need at least "
                   ++ str (cells_needed (Args.free_space args) (Args.rows args)
                             (Args.cols args))
                   ++ " unique items to fill a " ++ str (Args.rows args)
                   ++ "x" ++ str (Args.cols args)
                   ++ " card, but only " ++ str (len items)
                   ++ " were provided.")%string])
             (stdout w) (files w))).
Proof.
  intros Hr Hc Hn. unfold main.
  destruct (Z.ltb_spec (Args.rows args) 1); [lia|].
  destruct (Z.ltb_spec (Args.cols args) 1); [lia|]. cbn [orb].
  destruct (Z.ltb_spec (Args.cards args) 1); [lia|].
  split.
  - intros Hfile. unfold load_items. rewrite Hfile. reflexivity.
  - intros raw items Hfile -> Hlt _ _ _. unfold load_items. rewrite Hfile.
    unfold generate_pdf.
    destruct (Z.ltb_spec
                (len (collect_items (splitlines (universal_newlines raw))))
                (cells_needed (Args.free_space args) (Args.rows args)
                   (Args.cols args))); [reflexivity|lia].
Qed.

(** X7.  With a valid configuration and a file that holds enough items,
    [main] writes one document of exactly [cards] pages under the output
    name and prints the confirmation. *)
Theorem main_writes_cards
    (wrap : string -> Z -> list string) (stringWidth : string -> string -> Z -> Q)
    (rng : Z -> list nat) (fs : string -> option string) (args : Args.t)
    (w : world) (raw : string) (items : list string) :
  1 <= Args.rows args -> 1 <= Args.cols args -> 1 <= Args.cards args ->
  fs (Args.items_file args) = Some raw ->
  items = collect_items (splitlines (universal_newlines raw)) ->
  cells_needed (Args.free_space args) (Args.rows args) (Args.cols args)
  <= len items ->
  (forall n, 1 <= n <= Args.cards args ->
     sample_choice (List.length items)
       (cells_needed (Args.free_space args) (Args.rows args) (Args.cols args))
       (rng n)) ->
  exists doc,
    main wrap stringWidth rng fs args w
    = (inr tt,
       mkWorld (stderr w)
         (stdout w ++ [saved_message (Args.cards args) (Args.output args)])
         ((Args.output args, doc) :: files w))
    /\ len doc = Args.cards args.
Proof.
  intros Hr Hc Hn Hfile -> Hneed Hp. unfold main.
  destruct (Z.ltb_spec (Args.rows args) 1); [lia|].
  destruct (Z.ltb_spec (Args.cols args) 1); [lia|]. cbn [orb].
  destruct (Z.ltb_spec (Args.cards args) 1); [lia|].
  unfold load_items. rewrite Hfile.
  eexists. split; [now apply generate_pdf_run|].
  unfold len. rewrite length_map. fold (len (range_from 1 (Args.cards args + 1))).
  rewrite range_from_length. lia.
Qed.

(** *** Examples of the loader and of the entry point *)

Ltac clean_item_by_computation :=
  split;
  [ eexists; split; [reflexivity|split; [reflexivity|discriminate]]
  | split; [eexists; split; reflexivity|reflexivity] ].

Lemma load_items_clean_witness :
  load_items example_fs "events.txt" (mkWorld [] [] [])
  = (inr ["Touchdown"; "Field goal"], mkWorld [] [] [])
  /\ Forall clean_item ["Touchdown"; "Field goal"].
Proof.
  split; [reflexivity|].
  apply (load_items_clean example_fs "events.txt" (mkWorld [] [] [])
           (mkWorld [] [] []) ["Touchdown"; "Field goal"]).
  reflexivity.
Defined.

Lemma load_items_round_trip_witness :
  load_items
    (fun _ => Some (unlines (String CR (String LF EmptyString))
                      ["Touchdown"; "Field goal"]))
    "events.txt" (mkWorld [] [] [])
  = (inr ["Touchdown"; "Field goal"], mkWorld [] [] []).
Proof.
  apply (load_items_round_trip _ "events.txt" (String CR (String LF EmptyString))).
  - right. left. reflexivity.
  - constructor; [clean_item_by_computation|].
    constructor; [clean_item_by_computation|constructor].
  - right. reflexivity.
Defined.

Lemma load_items_concat_witness :
  exists items_a items_b,
    load_items (fun p => if String.eqb p "a.txt" then Some "x"
                         else if String.eqb p "b.txt" then Some "# c"
                         else Some ("x" ++ String LF "# c")%string)
      "a.txt" (mkWorld [] [] []) = (inr items_a, mkWorld [] [] [])
    /\ load_items (fun p => if String.eqb p "a.txt" then Some "x"
                            else if String.eqb p "b.txt" then Some "# c"
                            else Some ("x" ++ String LF "# c")%string)
         "b.txt" (mkWorld [] [] []) = (inr items_b, mkWorld [] [] [])
    /\ load_items (fun p => if String.eqb p "a.txt" then Some "x"
                            else if String.eqb p "b.txt" then Some "# c"
                            else Some ("x" ++ String LF "# c")%string)
         "ab.txt" (mkWorld [] [] []) = (inr (items_a ++ items_b), mkWorld [] [] []).
Proof.
  apply (load_items_concat _ "a.txt" "b.txt" "ab.txt" "x" "# c"); reflexivity.
Defined.

Lemma load_items_skips_line_witness :
  load_items (fun p => if String.eqb p "plain.txt"
                       then Some ("x" ++ String LF "y")%string
                       else Some ("x" ++ String LF ("  # note" ++ String LF "y"))%string)
    "commented.txt" (mkWorld [] [] [])
  = load_items (fun p => if String.eqb p "plain.txt"
                         then Some ("x" ++ String LF "y")%string
                         else Some ("x" ++ String LF ("  # note" ++ String LF "y"))%string)
      "plain.txt" (mkWorld [] [] []).
Proof.
  apply (load_items_skips_line _ "plain.txt" "commented.txt" "x" "y" "  # note").
  - split; [reflexivity|right; reflexivity].
  - reflexivity.
  - reflexivity.
Defined.

Lemma main_rejects_configuration_witness :
  exists message,
    main wrap_token helvetica_width (fun _ => [0; 1]%nat) (fun _ => None)
      (Args.mk "missing.txt" 0 5 10 "BINGO" false "FREE" "bingo_cards.pdf")
      (mkWorld [] [] [])
    = (inl (SystemExit 2), mkWorld ([] ++ [message]) [] []).
Proof.
  apply (main_rejects_configuration wrap_token helvetica_width (fun _ => [0; 1]%nat)
           (fun _ => None)
           (Args.mk "missing.txt" 0 5 10 "BINGO" false "FREE" "bingo_cards.pdf")
           (mkWorld [] [] [])).
  left. cbn. lia.
Defined.

Lemma main_exits_on_bad_input_witness :
  main wrap_token helvetica_width (fun _ => [0; 1]%nat) (fun _ => None)
    example_args (mkWorld [] [] [])
  = (inl (SystemExit 1),
     mkWorld ["Error: file not found: events.txt"] [] [])
  /\ main wrap_token helvetica_width (fun _ => [0; 1]%nat) example_fs
       (Args.mk "events.txt" 3 3 2 "BINGO" false "FREE" "bingo_cards.pdf")
       (mkWorld [] [] [])
     = (inl (SystemExit 1),
        mkWorld ["Error: need at least 9 unique items to fill a 3x3 card, but only 2 were provided."]
          [] []).
Proof.
  split.
  - apply (proj1 (main_exits_on_bad_input wrap_token helvetica_width
                    (fun _ => [0; 1]%nat) (fun _ => None) example_args
                    (mkWorld [] [] []) ltac:(cbn; lia) ltac:(cbn; lia)
                    ltac:(cbn; lia))).
    reflexivity.
  - apply (proj2 (main_exits_on_bad_input wrap_token helvetica_width
                    (fun _ => [0; 1]%nat) example_fs
                    (Args.mk "events.txt" 3 3 2 "BINGO" false "FREE"
                       "bingo_cards.pdf")
                    (mkWorld [] [] []) ltac:(cbn; lia) ltac:(cbn; lia)
                    ltac:(cbn; lia))
             example_file ["Touchdown"; "Field goal"]).
    + reflexivity.
    + reflexivity.
    + vm_compute. reflexivity.
    + vm_compute. reflexivity.
    + vm_compute. reflexivity.
    + vm_compute. reflexivity.
Defined.

Lemma main_writes_cards_witness :
  exists doc,
    main wrap_token helvetica_width (fun _ => [1; 0]%nat) example_fs
      example_args (mkWorld [] [] [])
    = (inr tt,
       mkWorld [] ["Saved 2 bingo card(s) to bingo_cards.pdf"]
         [("bingo_cards.pdf", doc)])
    /\ len doc = 2.
Proof.
  apply (main_writes_cards wrap_token helvetica_width (fun _ => [1; 0]%nat)
           example_fs example_args (mkWorld [] [] []) example_file
           ["Touchdown"; "Field goal"]).
  - cbn. lia.
  - cbn. lia.
  - cbn. lia.
  - reflexivity.
  - reflexivity.
  - vm_compute. discriminate.
  - intros n _. sample_choice_by_computation.
Defined.

(* ------------------------------------------------------------------ *)
(** ** More on the sampler *)

Lemma picks_all_positions (n : nat) (picks : list nat) :
  List.length picks = n -> NoDup picks -> Forall (fun i => (i < n)%nat) picks ->
  Permutation picks (seq 0 n).
Proof.
  intros Hlen Hnd Hlt. apply NoDup_Permutation_bis; [exact Hnd| |].
  - rewrite length_seq. lia.
  - intros i Hi. apply in_seq. rewrite Forall_forall in Hlt.
    specialize (Hlt i Hi). lia.
Qed.

Lemma sampled_all_positions (items : list string) :
  sampled (seq 0 (List.length items)) items = items.
Proof.
  unfold sampled. apply (nth_ext _ _ EmptyString EmptyString).
  - now rewrite length_map, length_seq.
  - intros i Hi. rewrite length_map, length_seq in Hi.
    rewrite (nth_indep _ _ (nth 0 items EmptyString)) by (rewrite length_map, length_seq; lia).
    rewrite (map_nth (fun i => nth i items EmptyString)), seq_nth by lia.
    reflexivity.
Qed.

Lemma insert_at_permutation {A} (m : nat) (x : A) (l : list A) :
  Permutation (insert_at m x l) (x :: l).
Proof.
  unfold insert_at. symmetry.
  rewrite <- (firstn_skipn m l) at 1. apply Permutation_middle.
Qed.

(** X8.  When the pool has exactly as many items as the card needs, the
    card shows every item of the pool: its cells are a permutation of the
    pool, with the free label added when the free space applies. *)
Theorem exact_pool_uses_every_item (picks : list nat) (items : list string)
    (rows cols : Z) (use_free_space : bool) (free_space_text : string) :
  1 <= rows -> 1 <= cols ->
  len items = cells_needed use_free_space rows cols ->
  sample_choice (List.length items) (cells_needed use_free_space rows cols) picks ->
  exists card,
    generate_card picks items rows cols use_free_space free_space_text = inr card
    /\ Permutation (List.concat card)
         (if free_applies use_free_space rows cols
          then free_space_text :: items else items).
Proof.
  intros Hr Hc Hlen Hp. eexists. split; [apply generate_card_closed; auto; lia|].
  pose proof (cells_needed_nonneg use_free_space rows cols Hr Hc) as H0.
  rewrite card_of_concat by (auto; now apply sampled_len).
  assert (Hs : Permutation (sampled picks items) items).
  { destruct Hp as (Hl & Hnd & Hlt).
    rewrite <- (sampled_all_positions items) at 2. unfold sampled.
    apply Permutation_map. apply picks_all_positions; auto.
    unfold len in Hlen. lia. }
  destruct (free_applies use_free_space rows cols); [|exact Hs].
  rewrite insert_at_permutation. now constructor.
Qed.

(** X9.  With a label that is not a pool item, the label stands on the
    card exactly once when the free space applies and not at all
    otherwise. *)
Theorem free_label_once (picks : list nat) (items : list string)
    (rows cols : Z) (use_free_space : bool) (free_space_text : string) :
  1 <= rows -> 1 <= cols ->
  cells_needed use_free_space rows cols <= len items ->
  sample_choice (List.length items) (cells_needed use_free_space rows cols) picks ->
  ~ In free_space_text items ->
  exists card,
    generate_card picks items rows cols use_free_space free_space_text = inr card
    /\ count_occ string_dec (List.concat card) free_space_text
       = if free_applies use_free_space rows cols then 1%nat else 0%nat.
Proof.
  intros Hr Hc Hn Hp Hout. eexists. split; [now apply generate_card_closed|].
  pose proof (cells_needed_nonneg use_free_space rows cols Hr Hc) as H0.
  rewrite card_of_concat by (auto; now apply sampled_len).
  assert (Hs : count_occ string_dec (sampled picks items) free_space_text = 0%nat).
  { apply count_occ_not_In. intros Hin. apply Hout.
    eapply sampled_in; [|exact Hin]. apply Hp. }
  destruct (free_applies use_free_space rows cols); [|exact Hs].
  rewrite (proj1 (Permutation_count_occ string_dec _ _)
             (insert_at_permutation (center_index rows cols) free_space_text
                (sampled picks items)) free_space_text).
  cbn [count_occ]. destruct (string_dec free_space_text free_space_text); [|contradiction].
  now rewrite Hs.
Qed.

(** *** The flag on a grid without center *)

Lemma free_applies_even (flag : bool) (rows cols : Z) :
  rows mod 2 <> 1 \/ cols mod 2 <> 1 -> free_applies flag rows cols = false.
Proof.
  intros H. unfold free_applies.
  destruct (Z.eqb_spec (rows mod 2) 1), (Z.eqb_spec (cols mod 2) 1);
    destruct flag; cbn; try reflexivity; lia.
Qed.

Lemma is_free_cell_even (flag : bool) (rows cols r c : Z) :
  rows mod 2 <> 1 \/ cols mod 2 <> 1 -> is_free_cell flag rows cols r c = false.
Proof.
  intros H. rewrite is_free_cell_eq, (free_applies_even flag rows cols H).
  reflexivity.
Qed.

Lemma for_each_pointwise {A} (f g : A -> draw unit) (l : list A) :
  (forall a cv, In a l -> f a cv = g a cv) ->
  forall cv, for_each l f cv = for_each l g cv.
Proof.
  induction l as [|a l IH]; intros H cv; [reflexivity|].
  cbn [for_each]. unfold dbind. rewrite (H a cv) by now left.
  destruct (g a cv) as [e|[u cv']]; [reflexivity|].
  apply IH. intros a' cv'' Hin. apply H. now right.
Qed.

Section EvenGrid.
Variable wrap : string -> Z -> list string.
Variable stringWidth : string -> string -> Z -> Q.
Variables rows cols : Z.
Hypothesis no_center : rows mod 2 <> 1 \/ cols mod 2 <> 1.

Lemma fill_row_even (chosen : list string) (label label' : string) (r : Z)
    (cs : list Z) (idx : Z) :
  fill_row chosen rows cols true label r cs idx
  = fill_row chosen rows cols false label' r cs idx.
Proof.
  revert idx. induction cs as [|c cs IH]; intros idx; [reflexivity|].
  cbn [fill_row]. rewrite !is_free_cell_even by exact no_center.
  now rewrite IH.
Qed.

Lemma fill_rows_even (chosen : list string) (label label' : string)
    (rs : list Z) (idx : Z) :
  fill_rows chosen rows cols true label rs idx
  = fill_rows chosen rows cols false label' rs idx.
Proof.
  revert idx. induction rs as [|r rs IH]; intros idx; [reflexivity|].
  cbn [fill_rows]. rewrite (fill_row_even chosen label label').
  destruct (fill_row chosen rows cols false label' r (range cols) idx)
    as [e|[row idx']]; [reflexivity|]. cbn [bind]. now rewrite IH.
Qed.

Lemma generate_card_even (picks : list nat) (items : list string)
    (label label' : string) :
  generate_card picks items rows cols true label
  = generate_card picks items rows cols false label'.
Proof.
  unfold generate_card, cells_needed.
  rewrite !free_applies_even by exact no_center.
  destruct (random_sample picks items (rows * cols)) as [e|chosen]; [reflexivity|].
  cbn [bind]. now rewrite (fill_rows_even chosen label label').
Qed.

Lemma draw_card_even (card : list (list string)) (n : Z) (title label label' : string)
    (cv : Canvas) :
  _draw_card wrap stringWidth card n title rows cols true label cv
  = _draw_card wrap stringWidth card n title rows cols false label' cv.
Proof.
  unfold _draw_card, dbind, setFont, setFillColor, drawCentredString, emit, lift.
  destruct (truediv grid_width (Zq cols)) as [e|cell_w]; [reflexivity|].
  destruct (truediv grid_height (Zq rows)) as [e|cell_h]; [reflexivity|].
  apply for_each_pointwise. intros r cv1 _.
  apply for_each_pointwise. intros c cv2 _.
  unfold draw_cell. rewrite !is_free_cell_even by exact no_center. reflexivity.
Qed.

(** X10.  On a grid with an even number of rows or of columns the free
    space flag and the label have no effect: the run with the flag set is
    the run without it, output and errors included. *)
Theorem free_space_ignored_without_center (rng : Z -> list nat)
    (items : list string) (num_cards : Z) (title label label' output : string)
    (w : world) :
  generate_pdf wrap stringWidth rng items rows cols num_cards title true label output w
  = generate_pdf wrap stringWidth rng items rows cols num_cards title false label'
      output w.
Proof.
  unfold generate_pdf, cells_needed.
  rewrite !free_applies_even by exact no_center.
  destruct (len items <? rows * cols); [reflexivity|].
  rewrite (for_each_pointwise
             (card_page wrap stringWidth rng items rows cols title true label)
             (card_page wrap stringWidth rng items rows cols title false label'));
    [reflexivity|].
  intros n cv _. unfold card_page, dbind, lift.
  rewrite (generate_card_even (rng n) items label label').
  destruct (generate_card (rng n) items rows cols false label') as [e|card];
    [reflexivity|].
  now rewrite (draw_card_even card n title label label').
Qed.
End EvenGrid.

(* ------------------------------------------------------------------ *)
(** ** More on the driver *)

Lemma keeps_filename_dret {A} (a : A) : keeps_filename (dret a).
Proof. intros cv a' cv' [= _ <-]. reflexivity. Qed.

Lemma keeps_filename_emit (op : canvas_op) : keeps_filename (emit op).
Proof. intros cv a cv' [= _ <-]. reflexivity. Qed.

Lemma keeps_filename_showPage : keeps_filename showPage.
Proof. intros cv a cv' [= _ <-]. reflexivity. Qed.

Lemma keeps_filename_lift {A} (m : res A) : keeps_filename (lift m).
Proof. intros cv a cv'. unfold lift. destruct m; [discriminate|]. now intros [= _ <-]. Qed.

Lemma keeps_filename_bind {A B} (m : draw A) (k : A -> draw B) :
  keeps_filename m -> (forall a, keeps_filename (k a)) ->
  keeps_filename (dbind m k).
Proof.
  intros Hm Hk cv b cv'. unfold dbind.
  destruct (m cv) as [e|[a cv1]] eqn:E; [discriminate|].
  intros H. rewrite (Hk a _ _ _ H). exact (Hm _ _ _ E).
Qed.

Lemma keeps_filename_for_each {A} (body : A -> draw unit) (l : list A) :
  (forall a, keeps_filename (body a)) -> keeps_filename (for_each l body).
Proof.
  intros Hbody. induction l as [|a l IH]; cbn [for_each].
  - apply keeps_filename_dret.
  - apply keeps_filename_bind; [apply Hbody|intros _; exact IH].
Qed.

Create HintDb keeps_filename.
#[local] Hint Resolve keeps_filename_dret keeps_filename_emit keeps_filename_showPage
  keeps_filename_lift keeps_filename_bind keeps_filename_for_each : keeps_filename.
#[local] Hint Extern 1 (keeps_filename (setFont _ _)) =>
  apply keeps_filename_emit : keeps_filename.
#[local] Hint Extern 1 (keeps_filename (setFillColor _)) =>
  apply keeps_filename_emit : keeps_filename.
#[local] Hint Extern 1 (keeps_filename (setStrokeColor _)) =>
  apply keeps_filename_emit : keeps_filename.
#[local] Hint Extern 1 (keeps_filename (setLineWidth _)) =>
  apply keeps_filename_emit : keeps_filename.
#[local] Hint Extern 1 (keeps_filename (drawCentredString _ _ _)) =>
  apply keeps_filename_emit : keeps_filename.
#[local] Hint Extern 1 (keeps_filename (rect _ _ _ _ _ _)) =>
  apply keeps_filename_emit : keeps_filename.

Section Filename.
Variable wrap : string -> Z -> list string.
Variable stringWidth : string -> string -> Z -> Q.

Lemma keeps_filename_fit_loop (text font_name : string) (max_w max_h : Q)
    (sizes : list Z) :
  keeps_filename (fit_loop wrap stringWidth text font_name max_w max_h sizes).
Proof.
  induction sizes as [|s sizes IH]; cbn [fit_loop]; auto with keeps_filename.
  apply keeps_filename_bind; auto with keeps_filename. intros _.
  apply keeps_filename_bind; auto with keeps_filename. intros f.
  destruct (fits_cell stringWidth font_name max_w max_h f); auto with keeps_filename.
Qed.

Lemma keeps_filename_draw_cell_text (text : string) (x y w h : Q) (is_free : bool) :
  keeps_filename (_draw_cell_text wrap stringWidth text x y w h is_free).
Proof.
  unfold _draw_cell_text, text_fit.
  apply keeps_filename_bind.
  - apply keeps_filename_bind; [apply keeps_filename_fit_loop|].
    intros [f|]; auto with keeps_filename.
  - intros f. apply keeps_filename_bind; auto with keeps_filename. intros _.
    apply keeps_filename_bind; auto with keeps_filename. intros _.
    apply keeps_filename_for_each. intros [i line]. auto with keeps_filename.
Qed.

Lemma keeps_filename_draw_card (card : list (list string)) (n : Z)
    (title : string) (rows cols : Z) (flag : bool) (label : string) :
  keeps_filename (_draw_card wrap stringWidth card n title rows cols flag label).
Proof.
  unfold _draw_card.
  do 8 (apply keeps_filename_bind; [auto with keeps_filename|intros ?]).
  apply keeps_filename_for_each. intros r.
  apply keeps_filename_for_each. intros c. unfold draw_cell.
  apply keeps_filename_bind.
  { destruct (is_free_cell flag rows cols r c); auto with keeps_filename. }
  intros _.
  do 4 (apply keeps_filename_bind; [auto with keeps_filename|intros ?]).
  apply keeps_filename_draw_cell_text.
Qed.

Lemma keeps_filename_card_page (rng : Z -> list nat) (items : list string)
    (rows cols : Z) (title : string) (flag : bool) (label : string) (n : Z) :
  keeps_filename (card_page wrap stringWidth rng items rows cols title flag label n).
Proof.
  unfold card_page. apply keeps_filename_bind; auto with keeps_filename.
  intros card. apply keeps_filename_bind; auto with keeps_filename.
  apply keeps_filename_draw_card.
Qed.
End Filename.


Lemma range_from_cons (a b : Z) : a < b -> range_from a b = a :: range_from (a + 1) b.
Proof.
  intros H. unfold range_from, range.
  replace (Z.to_nat (b - a)) with (S (Z.to_nat (b - (a + 1)))) by lia.
  cbn [seq map]. f_equal; [lia|].
  rewrite <- seq_shift, !map_map. apply map_ext. intros i. lia.
Qed.

Lemma Zq_nonzero (n : Z) : n <> 0 -> Qeq_bool (Zq n) 0 = false.
Proof.
  intros Hn. destruct (Qeq_bool (Zq n) 0) eqn:E; [|reflexivity].
  apply Qeq_bool_eq in E. unfold Qeq, Zq in E. cbn in E. lia.
Qed.

Lemma fill_rows_no_columns (chosen : list string) (rows : Z) (flag : bool)
    (label : string) (rs : list Z) (idx : Z) :
  fill_rows chosen rows 0 flag label rs idx = inr (map (fun _ => []) rs, idx).
Proof.
  induction rs as [|r rs IH]; [reflexivity|]. cbn [fill_rows map].
  change (range 0) with (@nil Z). cbn [fill_row bind ret]. now rewrite IH.
Qed.

(** X12.  Called with zero rows or zero columns, both dimensions within
    the range of a float, and at least one card, [generate_pdf] passes the
    pool check and raises [ZeroDivisionError] while drawing the first card;
    the world is left as it was. *)
Theorem zero_dimension_raises
    (wrap : string -> Z -> list string) (stringWidth : string -> string -> Z -> Q)
    (rng : Z -> list nat) (items : list string) (rows cols num_cards : Z)
    (title : string) (use_free_space : bool) (free_space_text output : string)
    (w : world) :
  1 <= num_cards -> rows = 0 \/ cols = 0 ->
  float_convertible rows -> float_convertible cols ->
  generate_pdf wrap stringWidth rng items rows cols num_cards title
    use_free_space free_space_text output w
  = (inl ZeroDivisionError, w).
Proof.
  intros Hcards Hzero _ _. unfold generate_pdf.
  assert (Hneed : cells_needed use_free_space rows cols = 0).
  { unfold cells_needed, free_applies.
    destruct Hzero as [-> | ->]; cbn; rewrite ?andb_false_r; cbn; lia. }
  rewrite Hneed. destruct (Z.ltb_spec (len items) 0) as [Hneg|_];
    [unfold len in Hneg; lia|].
  rewrite range_from_cons by lia. cbn [for_each]. unfold dbind at 1.
  assert (Hpage : forall cv,
            card_page wrap stringWidth rng items rows cols title use_free_space
              free_space_text 1 cv = inl ZeroDivisionError).
  { intros cv. unfold card_page, dbind at 1, lift, generate_card.
    rewrite Hneed. unfold random_sample.
    destruct (Z.ltb_spec (len items) 0) as [Hneg|_]; [unfold len in Hneg; lia|].
    change (0 <? 0) with false. cbn [orb bind].
    destruct (Z.eq_dec cols 0) as [->|Hcols].
    - rewrite fill_rows_no_columns. cbn [bind ret].
      unfold _draw_card, dbind, setFont, setFillColor, drawCentredString, emit, lift.
      reflexivity.
    - destruct Hzero as [->|Hc]; [|contradiction].
      change (range 0) with (@nil Z). cbn [fill_rows bind ret].
      unfold _draw_card, dbind, setFont, setFillColor, drawCentredString, emit, lift.
      unfold truediv at 1. rewrite (Zq_nonzero cols Hcols). reflexivity. }
  now rewrite Hpage.
Qed.

(** X13.  Called with dimensions that give a negative cell count and at
    least one card, [generate_pdf] passes the pool check and raises
    [ValueError] from the sampling of the first card; the world is left as
    it was. *)
Theorem negative_cell_count_raises
    (wrap : string -> Z -> list string) (stringWidth : string -> string -> Z -> Q)
    (rng : Z -> list nat) (items : list string) (rows cols num_cards : Z)
    (title : string) (use_free_space : bool) (free_space_text output : string)
    (w : world) :
  1 <= num_cards -> cells_needed use_free_space rows cols < 0 ->
  generate_pdf wrap stringWidth rng items rows cols num_cards title
    use_free_space free_space_text output w
  = (inl ValueError, w).
Proof.
  intros Hcards Hneg. unfold generate_pdf.
  destruct (Z.ltb_spec (len items) (cells_needed use_free_space rows cols)) as [H|_];
    [unfold len in H; lia|].
  rewrite range_from_cons by lia. cbn [for_each]. unfold dbind at 1.
  unfold card_page, dbind at 1, lift, generate_card, random_sample.
  destruct (Z.ltb_spec (cells_needed use_free_space rows cols) 0); [|lia].
  reflexivity.
Qed.

(** *** Examples of the sampler and of the driver *)

Lemma exact_pool_uses_every_item_witness :
  exists card,
    generate_card [3; 1; 0; 2; 4; 5; 6; 7]%nat
      ["a"; "b"; "c"; "d"; "e"; "f"; "g"; "h"] 3 3 true "WILD" = inr card
    /\ Permutation (List.concat card)
         ["WILD"; "a"; "b"; "c"; "d"; "e"; "f"; "g"; "h"].
Proof.
  apply (exact_pool_uses_every_item [3; 1; 0; 2; 4; 5; 6; 7]%nat
           ["a"; "b"; "c"; "d"; "e"; "f"; "g"; "h"] 3 3 true "WILD").
  - lia.
  - lia.
  - reflexivity.
  - sample_choice_by_computation.
Defined.

Lemma free_label_once_witness :
  exists card,
    generate_card [3; 1; 0; 2; 4; 5; 6; 7]%nat
      ["a"; "b"; "c"; "d"; "e"; "f"; "g"; "h"; "i"] 3 3 true "WILD" = inr card
    /\ count_occ string_dec (List.concat card) "WILD" = 1%nat.
Proof.
  apply (free_label_once [3; 1; 0; 2; 4; 5; 6; 7]%nat
           ["a"; "b"; "c"; "d"; "e"; "f"; "g"; "h"; "i"] 3 3 true "WILD").
  - lia.
  - lia.
  - vm_compute. discriminate.
  - sample_choice_by_computation.
  - cbn. intuition discriminate.
Defined.

Lemma free_space_ignored_without_center_witness :
  generate_pdf wrap_token helvetica_width (fun _ => [1; 0; 3; 2]%nat)
    ["a"; "b"; "c"; "d"] 2 2 1 "BINGO" true "WILD" "bingo_cards.pdf"
    (mkWorld [] [] [])
  = generate_pdf wrap_token helvetica_width (fun _ => [1; 0; 3; 2]%nat)
      ["a"; "b"; "c"; "d"] 2 2 1 "BINGO" false "FREE" "bingo_cards.pdf"
      (mkWorld [] [] []).
Proof.
  apply (free_space_ignored_without_center wrap_token helvetica_width 2 2).
  left. cbn. discriminate.
Defined.

Lemma zero_dimension_raises_witness :
  generate_pdf wrap_token helvetica_width (fun _ => []) ["a"; "b"] 3 0 1 "BINGO"
    false "FREE" "bingo_cards.pdf" (mkWorld [] [] [])
  = (inl ZeroDivisionError, mkWorld [] [] []).
Proof.
  apply zero_dimension_raises;
    [lia | right; reflexivity | vm_compute; reflexivity | vm_compute; reflexivity].
Defined.

Lemma negative_cell_count_raises_witness :
  generate_pdf wrap_token helvetica_width (fun _ => []) ["a"; "b"] (-1) 2 1 "BINGO"
    false "FREE" "bingo_cards.pdf" (mkWorld [] [] [])
  = (inl ValueError, mkWorld [] [] []).
Proof.
  apply negative_cell_count_raises; [lia|reflexivity].
Defined.

(* ------------------------------------------------------------------ *)
(** ** More on the renderer *)

Lemma appends_unique {A} (m : draw A) (a a' : A) (ops ops' : list canvas_op) :
  appends m a ops -> appends m a' ops' -> a = a' /\ ops = ops'.
Proof.
  intros H H'. specialize (H (mkCanvas EmptyString [] [])).
  rewrite (H' (mkCanvas EmptyString [] [])) in H. cbn in H.
  injection H as -> ->. split; reflexivity.
Qed.

Lemma appends_for_each_ops {A} (body : A -> draw unit) (l : list A) :
  (forall a, In a l -> exists ops, appends (body a) tt ops) ->
  appends (for_each l body) tt (flat_map (fun a => ops_of (body a)) l).
Proof.
  induction l as [|a l IH]; intros Hbody.
  - apply appends_dret.
  - cbn [for_each flat_map].
    destruct (Hbody a (or_introl eq_refl)) as (ops & Ha).
    rewrite (appends_ops_of _ _ Ha).
    eapply appends_bind; [exact Ha|]. apply IH. intros a' Hin. apply Hbody. now right.
Qed.

Lemma flat_map_ext_in {A B} (f g : A -> list B) (l : list A) :
  (forall a, In a l -> f a = g a) -> flat_map f l = flat_map g l.
Proof.
  induction l as [|a l IH]; intros H; [reflexivity|].
  cbn [flat_map]. rewrite (H a) by now left. rewrite IH; [reflexivity|].
  intros a' Hin. apply H. now right.
Qed.

Lemma rects_with_app (s f : bool) (ops ops' : list canvas_op) :
  rects_with s f (ops ++ ops') = rects_with s f ops ++ rects_with s f ops'.
Proof. unfold rects_with. apply flat_map_app. Qed.

Lemma rects_with_flat_map {A} (s f : bool) (g : A -> list canvas_op) (l : list A) :
  rects_with s f (flat_map g l) = flat_map (fun a => rects_with s f (g a)) l.
Proof.
  induction l as [|a l IH]; [reflexivity|].
  cbn [flat_map]. now rewrite rects_with_app, IH.
Qed.

Lemma rects_with_no_rect (s f : bool) (ops : list canvas_op) :
  Forall (fun op => match op with Rect _ _ _ _ _ _ => False | _ => True end) ops ->
  rects_with s f ops = [].
Proof.
  induction 1 as [|op ops Hop _ IH]; [reflexivity|].
  unfold rects_with in *. cbn [flat_map]. rewrite IH.
  destruct op; try reflexivity. contradiction.
Qed.

Section CellOps.
Variable wrap : string -> Z -> list string.
Variable stringWidth : string -> string -> Z -> Q.

(** The sizes tried by the loop are the first sizes of the list, and the
    last one tried is the size found. *)
Lemma fit_loop_tried (text font_name : string) (max_w max_h : Q) (sizes : list Z) :
  Forall (fun s => s <> 0) sizes ->
  exists found tried rest,
    appends (fit_loop wrap stringWidth text font_name max_w max_h sizes) found
      (map (SetFont font_name) tried)
    /\ sizes = tried ++ rest
    /\ match found with
       | Some f =>
           (exists init, tried = init ++ [size f])
           /\ layout_at wrap text max_w (size f) = inr f
       | None => rest = []
       end.
Proof.
  induction sizes as [|s sizes IH]; intros Hnz.
  - exists None, [], []. split; [apply appends_dret|]. split; reflexivity.
  - inversion Hnz as [|? ? Hs Hnz']; subst.
    destruct (layout_at_ok wrap text max_w s Hs) as (width & _ & _ & Hlay).
    set (f := mkFitted s (wrap text width) (Zq s * (6 # 5))
                (Zq (len (wrap text width)) * (Zq s * (6 # 5)))) in *.
    cbn [fit_loop].
    destruct (fits_cell stringWidth font_name max_w max_h f) eqn:E.
    + exists (Some f), [s], sizes. split; [|split; [reflexivity|split]].
      * change (map (SetFont font_name) [s]) with ([SetFont font_name s] ++ [] ++ []).
        eapply appends_bind; [apply appends_emit|].
        eapply appends_bind; [apply appends_lift; exact Hlay|].
        rewrite E. apply appends_dret.
      * exists []. reflexivity.
      * exact Hlay.
    + destruct (IH Hnz') as (found & tried & rest & Happ & Heq & Hfound).
      exists found, (s :: tried), rest. split; [|split].
      * change (map (SetFont font_name) (s :: tried))
          with ([SetFont font_name s] ++ [] ++ map (SetFont font_name) tried).
        eapply appends_bind; [apply appends_emit|].
        eapply appends_bind; [apply appends_lift; exact Hlay|].
        rewrite E. exact Happ.
      * cbn. now rewrite Heq.
      * destruct found as [g|]; [|exact Hfound].
        destruct Hfound as ((init & ->) & Hg). split; [|exact Hg].
        exists (s :: init). reflexivity.
Qed.

Lemma text_fit_tried (text font_name : string) (max_w max_h : Q) :
  exists f init rest,
    appends (text_fit wrap stringWidth text font_name max_w max_h) f
      (map (SetFont font_name) (init ++ [size f]))
    /\ candidate_sizes = init ++ size f :: rest
    /\ layout_at wrap text max_w (size f) = inr f.
Proof.
  destruct (fit_loop_tried text font_name max_w max_h candidate_sizes
              candidate_sizes_nonzero)
    as (found & tried & rest & Happ & Heq & Hfound).
  destruct found as [f|].
  - destruct Hfound as ((init & ->) & Hlay).
    exists f, init, rest. split; [|split].
    + rewrite <- (app_nil_r (map _ _)). unfold text_fit.
      eapply appends_bind; [exact Happ|apply appends_dret].
    + rewrite Heq, <- app_assoc. reflexivity.
    + exact Hlay.
  - subst rest. rewrite app_nil_r in Heq. subst tried.
    destruct (layout_at_ok wrap text max_w 6) as (width & _ & _ & Hlay); [lia|].
    exists (mkFitted 6 (wrap text width) (Zq 6 * (6 # 5))
              (Zq (len (wrap text width)) * (Zq 6 * (6 # 5)))),
      [11; 10; 9; 8; 7], []. split; [|split].
    + rewrite <- (app_nil_r (map _ _)). unfold text_fit.
      eapply appends_bind; [exact Happ|]. apply appends_lift. exact Hlay.
    + reflexivity.
    + exact Hlay.
Qed.

Lemma draw_cell_text_ops (text : string) (x y w h : Q) (is_free : bool) :
  exists f init rest,
    ops_of (_draw_cell_text wrap stringWidth text x y w h is_free)
    = map (SetFont (cell_font is_free)) (init ++ [size f])
      ++ [SetFillColor CELL_TEXT_COLOR] ++ [SetFont (cell_font is_free) (size f)]
      ++ text_ops x y w h f
    /\ candidate_sizes = init ++ size f :: rest
    /\ layout_at wrap text (w - 2 * 4)%Q (size f) = inr f
    /\ appends (text_fit wrap stringWidth text (cell_font is_free)
                  (w - 2 * 4)%Q (h - 2 * 4)%Q) f
         (map (SetFont (cell_font is_free)) (init ++ [size f])).
Proof.
  destruct (text_fit_tried text (cell_font is_free) (w - 2 * 4)%Q (h - 2 * 4)%Q)
    as (f & init & rest & Happ & Heq & Hlay).
  exists f, init, rest. split; [|split; [exact Heq|split; [exact Hlay|exact Happ]]].
  apply appends_ops_of.
  apply (draw_cell_text_appends wrap stringWidth _ _ _ _ _ _ _ _ Happ).
Qed.
End CellOps.

Lemma fonts_set_app (ops ops' : list canvas_op) :
  fonts_set (ops ++ ops') = fonts_set ops ++ fonts_set ops'.
Proof. unfold fonts_set. apply flat_map_app. Qed.

Lemma fonts_set_set_fonts (name : string) (sizes : list Z) :
  fonts_set (map (SetFont name) sizes) = map (pair name) sizes.
Proof.
  induction sizes as [|s sizes IH]; [reflexivity|]. cbn. f_equal. exact IH.
Qed.

Lemma fonts_set_text_ops (x y w h : Q) (f : fitted) :
  fonts_set (text_ops x y w h f) = [].
Proof.
  unfold text_ops. induction (combine (range (len (wrapped f))) (wrapped f));
    [reflexivity|exact IHl].
Qed.

Lemma descending_larger (init rest : list Z) (x : Z) :
  StronglySorted Z.gt (init ++ x :: rest) ->
  filter (fun s => x <? s) (init ++ x :: rest) = init.
Proof.
  induction init as [|a init IH]; intros Hs.
  - cbn [app filter]. rewrite Z.ltb_irrefl.
    apply StronglySorted_inv in Hs. destruct Hs as (_ & Hall).
    induction rest as [|b rest IHr]; [reflexivity|].
    inversion Hall; subst. cbn [filter].
    destruct (Z.ltb_spec x b); [lia|]. now apply IHr.
  - cbn [app filter] in *. apply StronglySorted_inv in Hs. destruct Hs as (Hs & Hall).
    rewrite Forall_forall in Hall.
    assert (Hx : a > x) by (apply Hall, in_or_app; right; now left).
    destruct (Z.ltb_spec x a); [|lia]. f_equal. now apply IH.
Qed.

Lemma combine_range_nth_error {A} (l : list A) (a i : nat) :
  nth_error (combine (map Z.of_nat (seq a (List.length l))) l) i
  = option_map (fun v => (Z.of_nat (a + i), v)) (nth_error l i).
Proof.
  revert a i. induction l as [|v l IH]; intros a i.
  - destruct i; reflexivity.
  - cbn [List.length seq map combine]. destruct i as [|i].
    + cbn. now rewrite Nat.add_0_r.
    + cbn [nth_error]. rewrite IH. now rewrite Nat.add_succ_comm.
Qed.

Section CellTheorems.
Variable wrap : string -> Z -> list string.
Variable stringWidth : string -> string -> Z -> Q.

(** X14.  Let [f] be the layout the size search of [_draw_cell_text]
    returns for the text of the cell; its lines are the text wrapped at the
    width computed for the chosen size.  [_draw_cell_text] draws exactly
    these lines, one string per line and in order, after operations that
    draw no string, each line centered on the middle of the cell width.
    With [n] lines of height [lh = 1.2 * size], the baseline of line [i] is
    [(n / 2 - i - 1) * lh + (lh - size) / 2] above the middle of the cell
    height: the block of lines is centered in the cell. *)
Theorem cell_text_lines (text : string) (x y w h : Q) (is_free : bool)
    (cv : Canvas) :
  exists f cv' width set_up,
    text_fit wrap stringWidth text
      (if is_free then "Helvetica-Bold" else "Helvetica")
      (w - 2 * 4)%Q (h - 2 * 4)%Q cv = inr (f, cv')
    /\ wrap_width (w - 2 * 4)%Q (size f) = inr width
    /\ wrapped f = wrap text width
    /\ ops_of (_draw_cell_text wrap stringWidth text x y w h is_free)
       = set_up ++ text_ops x y w h f
    /\ Forall (fun op => match op with
                         | DrawCentredString _ _ _ => False
                         | _ => True
                         end) set_up
    /\ len (text_ops x y w h f) = len (wrapped f)
    /\ forall i line,
         nth_error (wrapped f) i = Some line ->
         exists line_y,
           nth_error (text_ops x y w h f) i
           = Some (DrawCentredString (x + w / 2)%Q line_y line)
           /\ (line_y == y + h / 2
                         + (Zq (len (wrapped f)) / 2 - Zq (Z.of_nat i) - 1)
                           * (Zq (size f) * (6 # 5))
                         + (Zq (size f) * (6 # 5) - Zq (size f)) / 2)%Q.
Proof.
  destruct (draw_cell_text_ops wrap stringWidth text x y w h is_free)
    as (f & init & rest & Hops & Hcand & Hlay & Happ).
  destruct (layout_at_ok wrap text (w - 2 * 4)%Q (size f))
    as (width & Hwidth & _ & Hl).
  { assert (Hin : In (size f) candidate_sizes)
      by (rewrite Hcand; apply in_or_app; right; now left).
    apply candidate_sizes_range in Hin. lia. }
  rewrite Hlay in Hl. injection Hl as Hl.
  exists f. eexists. exists width. eexists.
  split; [apply (Happ cv)|].
  split; [exact Hwidth|].
  split; [rewrite Hl at 1; reflexivity|].
  split; [rewrite Hops, !app_assoc; reflexivity|].
  split.
  { apply Forall_app. split; [apply Forall_app; split|].
    - apply Forall_map, Forall_forall. intros s _. exact I.
    - repeat constructor.
    - repeat constructor. }
  assert (Hf : line_height f = (Zq (size f) * (6 # 5))%Q
               /\ total_text_h f
                  = (Zq (len (wrapped f)) * (Zq (size f) * (6 # 5)))%Q).
  { rewrite Hl at 1 3. cbn. rewrite Hl. split; reflexivity. }
  destruct Hf as (Hlh & Htotal).
  split.
  { unfold text_ops, len. rewrite length_map, length_combine, range_length.
    rewrite Nat2Z.id. now rewrite Nat.min_id. }
  intros i line Hline. unfold text_ops, range, len.
  rewrite nth_error_map, Nat2Z.id, combine_range_nth_error, Hline. cbn.
  eexists. split; [reflexivity|].
  rewrite Hlh, Htotal. unfold len. field.
Qed.

(** X15.  The fonts [_draw_cell_text] sets all carry the font of the cell,
    bold for the free cell and regular otherwise.  Their sizes are, in
    order, every candidate larger than the chosen size, then the chosen size
    twice: once by the search and once for the drawing. *)
Theorem cell_fonts (text : string) (x y w h : Q) (is_free : bool) (cv : Canvas) :
  exists f cv',
    text_fit wrap stringWidth text
      (if is_free then "Helvetica-Bold" else "Helvetica")
      (w - 2 * 4)%Q (h - 2 * 4)%Q cv = inr (f, cv')
    /\ fonts_set (ops_of (_draw_cell_text wrap stringWidth text x y w h is_free))
       = map (pair (if is_free then "Helvetica-Bold" else "Helvetica"))
           (filter (fun s => size f <? s) candidate_sizes ++ [size f; size f]).
Proof.
  destruct (draw_cell_text_ops wrap stringWidth text x y w h is_free)
    as (f & init & rest & Hops & Hcand & _ & Happ).
  exists f. eexists. split; [apply Happ|].
  rewrite Hops, !fonts_set_app, fonts_set_set_fonts, fonts_set_text_ops.
  assert (Hinit : filter (fun s => size f <? s) candidate_sizes = init).
  { rewrite Hcand. apply descending_larger. rewrite <- Hcand.
    apply candidate_sizes_descending. }
  rewrite Hinit. unfold cell_font. cbn [fonts_set flat_map app].
  rewrite !map_app, <- app_assoc. reflexivity.
Qed.
End CellTheorems.

(** *** The rectangles of a page *)

Lemma flat_map_nil {A B} (l : list A) : flat_map (fun _ : A => @nil B) l = [].
Proof. induction l; [reflexivity|assumption]. Qed.

Lemma flat_map_singleton {A B} (g : A -> B) (l : list A) :
  flat_map (fun a => [g a]) l = map g l.
Proof. induction l as [|a l IH]; [reflexivity|]. cbn. now rewrite IH. Qed.

(** Only one index of a range passes an equality test. *)
Lemma flat_map_at {B} (g : Z -> list B) (k : Z) (n a : nat) :
  flat_map (fun i => if i =? k then g i else []) (map Z.of_nat (seq a n))
  = if (Z.of_nat a <=? k) && (k <? Z.of_nat a + Z.of_nat n) then g k else [].
Proof.
  revert a. induction n as [|n IH]; intros a.
  - cbn. destruct (Z.leb_spec (Z.of_nat a) k), (Z.ltb_spec k (Z.of_nat a + 0));
      try reflexivity. lia.
  - cbn [seq map flat_map]. rewrite IH.
    destruct (Z.eqb_spec (Z.of_nat a) k) as [<-|Hne].
    + destruct (Z.leb_spec (Z.of_nat (S a)) (Z.of_nat a)); [lia|].
      destruct (Z.leb_spec (Z.of_nat a) (Z.of_nat a)); [|lia].
      destruct (Z.ltb_spec (Z.of_nat a) (Z.of_nat a + Z.of_nat (S n))); [|lia].
      cbn [andb]. now rewrite app_nil_r.
    + cbn [app].
      destruct (Z.leb_spec (Z.of_nat (S a)) k), (Z.leb_spec (Z.of_nat a) k),
        (Z.ltb_spec k (Z.of_nat (S a) + Z.of_nat n)),
        (Z.ltb_spec k (Z.of_nat a + Z.of_nat (S n))); try reflexivity; lia.
Qed.

Lemma flat_map_range_at {B} (g : Z -> list B) (k n : Z) :
  0 <= k < n ->
  flat_map (fun i => if i =? k then g i else []) (range n) = g k.
Proof.
  intros Hk. unfold range. rewrite flat_map_at.
  destruct (Z.leb_spec (Z.of_nat 0) k); [|lia].
  destruct (Z.ltb_spec k (Z.of_nat 0 + Z.of_nat (Z.to_nat n))); [reflexivity|lia].
Qed.

Section PageTheorems.
Variable wrap : string -> Z -> list string.
Variable stringWidth : string -> string -> Z -> Q.

Lemma draw_cell_text_no_rect (text : string) (x y w h : Q) (is_free : bool)
    (s f : bool) :
  rects_with s f (ops_of (_draw_cell_text wrap stringWidth text x y w h is_free)) = [].
Proof.
  destruct (draw_cell_text_ops wrap stringWidth text x y w h is_free)
    as (lay & init & rest & -> & _).
  apply rects_with_no_rect.
  apply Forall_app. split; [|apply Forall_app; split; [|apply Forall_app; split]].
  - apply Forall_map, Forall_forall. intros ? _. exact I.
  - repeat constructor.
  - repeat constructor.
  - unfold text_ops. apply Forall_map, Forall_forall. intros ? _. exact I.
Qed.

Lemma draw_cell_rects (card : list (list string)) (rows cols : Z) (flag : bool)
    (r c : Z) (s f : bool) :
  (exists text, cell card r c = Some text) ->
  rects_with s f
    (ops_of (draw_cell wrap stringWidth card rows cols flag
               (grid_width / Zq cols)%Q (grid_height / Zq rows)%Q r c))
  = (if is_free_cell flag rows cols r c && (negb s && f)
     then [cell_rect rows cols r c] else [])
    ++ (if s && negb f then [cell_rect rows cols r c] else []).
Proof.
  intros (text & Hcell).
  destruct (draw_cell_appends wrap stringWidth card rows cols flag
              (grid_width / Zq cols)%Q (grid_height / Zq rows)%Q r c text Hcell)
    as (text_ops & Htext & Hcellops).
  rewrite (appends_ops_of _ _ Hcellops), !rects_with_app.
  rewrite <- (appends_ops_of _ _ Htext), draw_cell_text_no_rect, app_nil_r.
  destruct (is_free_cell flag rows cols r c), s, f; reflexivity.
Qed.

Lemma draw_card_ops (card : list (list string)) (n : Z) (title : string)
    (rows cols : Z) (flag : bool) (label : string) :
  1 <= rows -> 1 <= cols -> full_grid rows cols card ->
  ops_of (_draw_card wrap stringWidth card n title rows cols flag label)
  = title_ops title ++ footer_ops n
    ++ flat_map (fun r =>
         flat_map (fun c =>
           ops_of (draw_cell wrap stringWidth card rows cols flag
                     (grid_width / Zq cols)%Q (grid_height / Zq rows)%Q r c))
           (range cols))
         (range rows).
Proof.
  intros Hr Hc Hfull.
  assert (Hcellbody : forall r c, In r (range rows) -> In c (range cols) ->
            exists ops,
              appends (draw_cell wrap stringWidth card rows cols flag
                         (grid_width / Zq cols)%Q (grid_height / Zq rows)%Q r c)
                tt ops).
  { intros r c Hrr Hcc. apply in_range in Hrr, Hcc.
    destruct (Hfull r c Hrr Hcc) as (s & Hs).
    destruct (draw_cell_appends wrap stringWidth card rows cols flag
                (grid_width / Zq cols)%Q (grid_height / Zq rows)%Q r c s Hs)
      as (text_ops & _ & H).
    eexists. exact H. }
  assert (Hrow : forall r, In r (range rows) ->
            appends (for_each (range cols) (fun c =>
                       draw_cell wrap stringWidth card rows cols flag
                         (grid_width / Zq cols)%Q (grid_height / Zq rows)%Q r c))
              tt
              (flat_map (fun c =>
                 ops_of (draw_cell wrap stringWidth card rows cols flag
                           (grid_width / Zq cols)%Q (grid_height / Zq rows)%Q r c))
                 (range cols))).
  { intros r Hrr. apply appends_for_each_ops. intros c Hcc. now apply Hcellbody. }
  pose proof (appends_for_each_ops
                (fun r => for_each (range cols) (fun c =>
                   draw_cell wrap stringWidth card rows cols flag
                     (grid_width / Zq cols)%Q (grid_height / Zq rows)%Q r c))
                (range rows)) as Hgrid.
  cbv beta in Hgrid.
  rewrite (flat_map_ext_in _
             (fun r => flat_map (fun c =>
                ops_of (draw_cell wrap stringWidth card rows cols flag
                          (grid_width / Zq cols)%Q (grid_height / Zq rows)%Q r c))
                (range cols))) in Hgrid
    by (intros r Hrr; apply appends_ops_of; now apply Hrow).
  specialize (Hgrid ltac:(intros r Hrr; eexists; now apply Hrow)).
  apply appends_ops_of.
  enough (H : exists ops,
             appends (_draw_card wrap stringWidth card n title rows cols flag label)
               tt ops
             /\ ops = title_ops title ++ footer_ops n
                      ++ flat_map (fun r =>
                           flat_map (fun c =>
                             ops_of (draw_cell wrap stringWidth card rows cols flag
                                       (grid_width / Zq cols)%Q
                                       (grid_height / Zq rows)%Q r c))
                             (range cols))
                           (range rows))
    by (destruct H as (ops & H & ->); exact H).
  eexists. split.
  - unfold _draw_card.
    eapply appends_bind; [apply appends_emit|].
    eapply appends_bind; [apply appends_emit|].
    eapply appends_bind; [apply appends_emit|].
    eapply appends_bind; [apply appends_emit|].
    eapply appends_bind; [apply appends_emit|].
    eapply appends_bind; [apply appends_emit|].
    eapply appends_bind; [apply appends_lift, truediv_nonzero; exact Hc|].
    eapply appends_bind; [apply appends_lift, truediv_nonzero; exact Hr|].
    exact Hgrid.
  - reflexivity.
Qed.

Lemma page_rects (card : list (list string)) (n : Z) (title : string)
    (rows cols : Z) (flag : bool) (label : string) (s f : bool) :
  1 <= rows -> 1 <= cols -> full_grid rows cols card ->
  rects_with s f
    (ops_of (_draw_card wrap stringWidth card n title rows cols flag label))
  = flat_map (fun r =>
      flat_map (fun c =>
        (if is_free_cell flag rows cols r c && (negb s && f)
         then [cell_rect rows cols r c] else [])
        ++ (if s && negb f then [cell_rect rows cols r c] else []))
        (range cols))
      (range rows).
Proof.
  intros Hr Hc Hfull. rewrite draw_card_ops by assumption.
  rewrite !rects_with_app.
  change (rects_with s f (title_ops title)) with (@nil rectangle).
  change (rects_with s f (footer_ops n)) with (@nil rectangle).
  cbn [app]. rewrite rects_with_flat_map.
  apply flat_map_ext_in. intros r Hrr. rewrite rects_with_flat_map.
  apply flat_map_ext_in. intros c Hcc. apply draw_cell_rects.
  apply in_range in Hrr, Hcc. now apply Hfull.
Qed.

(** X16.  On a card that fills the grid, the rectangles [_draw_card] strokes
    are the [rows * cols] cell rectangles, one border per cell, in row-major
    order. *)
Theorem page_borders (card : list (list string)) (n : Z) (title : string)
    (rows cols : Z) (flag : bool) (label : string) :
  1 <= rows -> 1 <= cols -> full_grid rows cols card ->
  rects_with true false
    (ops_of (_draw_card wrap stringWidth card n title rows cols flag label))
  = cell_rects rows cols
  /\ len (cell_rects rows cols) = rows * cols.
Proof.
  intros Hr Hc Hfull. split; [|apply cell_rects_length; lia].
  rewrite page_rects by assumption. unfold cell_rects.
  apply flat_map_ext_in. intros r _.
  rewrite <- flat_map_singleton. apply flat_map_ext_in. intros c _.
  cbn [negb andb]. rewrite andb_false_r. reflexivity.
Qed.

(** X17.  On a card that fills the grid, [_draw_card] fills exactly one
    rectangle, the center cell, when the flag is set and both dimensions
    are odd, and fills nothing in every other case. *)
Theorem page_highlight (card : list (list string)) (n : Z) (title : string)
    (rows cols : Z) (flag : bool) (label : string) :
  1 <= rows -> 1 <= cols -> full_grid rows cols card ->
  rects_with false true
    (ops_of (_draw_card wrap stringWidth card n title rows cols flag label))
  = if free_applies flag rows cols
    then [cell_rect rows cols (rows / 2) (cols / 2)] else [].
Proof.
  intros Hr Hc Hfull. rewrite page_rects by assumption. cbn [negb andb].
  rewrite (flat_map_ext_in _
             (fun r => if r =? rows / 2
                       then (if free_applies flag rows cols
                             then [cell_rect rows cols r (cols / 2)] else [])
                       else [])).
  - rewrite flat_map_range_at by lia. reflexivity.
  - intros r _.
    rewrite (flat_map_ext_in _
               (fun c => if c =? cols / 2
                         then (if free_applies flag rows cols && (r =? rows / 2)
                               then [cell_rect rows cols r c] else [])
                         else [])).
    + rewrite flat_map_range_at by lia.
      destruct (free_applies flag rows cols), (r =? rows / 2); reflexivity.
    + intros c _. rewrite is_free_cell_eq, andb_true_r, app_nil_r.
      destruct (free_applies flag rows cols), (r =? rows / 2), (c =? cols / 2);
        reflexivity.
Qed.
End PageTheorems.

(** *** Examples of pages *)

Lemma full_grid_example : full_grid 1 1 [["a"]].
Proof.
  intros r c Hr Hc. assert (r = 0) by lia. assert (c = 0) by lia. subst.
  eexists. reflexivity.
Qed.

Lemma page_borders_witness :
  rects_with true false
    (ops_of (_draw_card wrap_token helvetica_width [["a"]] 1 "BINGO" 1 1 true "FREE"))
  = cell_rects 1 1
  /\ len (cell_rects 1 1) = 1 * 1.
Proof.
  apply (page_borders wrap_token helvetica_width [["a"]] 1 "BINGO" 1 1 true "FREE").
  - lia.
  - lia.
  - exact full_grid_example.
Defined.

Lemma page_highlight_witness :
  rects_with false true
    (ops_of (_draw_card wrap_token helvetica_width [["FREE"]] 1 "BINGO" 1 1 true "FREE"))
  = [cell_rect 1 1 0 0].
Proof.
  apply (page_highlight wrap_token helvetica_width [["FREE"]] 1 "BINGO" 1 1 true "FREE").
  - lia.
  - lia.
  - intros r c Hr Hc. assert (r = 0) by lia. assert (c = 0) by lia. subst.
    eexists. reflexivity.
Defined.

(** *** Card numbers and their labels *)

Lemma to_int_proper (n : Z) :
  Z.to_int n <> Decimal.Pos Decimal.Nil /\ Z.to_int n <> Decimal.Neg Decimal.Nil.
Proof.
  destruct n as [|p|p]; cbn; split; try discriminate;
    intros [= H]; now apply (Unsigned.to_uint_nonnil p).
Qed.

Lemma str_injective (a b : Z) : str a = str b -> a = b.
Proof.
  unfold str. intros H.
  destruct (to_int_proper a) as (Ha1 & Ha2), (to_int_proper b) as (Hb1 & Hb2).
  apply (f_equal NilZero.int_of_string) in H.
  rewrite !NilZero.isi in H by assumption.
  injection H as H. now apply DecimalZ.to_int_inj.
Qed.

(** X18.  Pages of different numbers carry different footers: the footer
    strings of two card numbers are equal only if the numbers are, and
    the number can be read back from the footer. *)
Theorem footer_identifies_card (n m : Z) :
  (footer_ops n = footer_ops m <-> n = m)
  /\ NilZero.int_of_string (str n) = Some (Z.to_int n).
Proof.
  split; [split|].
  - unfold footer_ops. intros [= H]. now apply str_injective.
  - now intros ->.
  - unfold str. destruct (to_int_proper n). now apply NilZero.isi.
Qed.

(** *** The wrap width *)

Lemma py_int_monotone (x y : Q) : (x <= y)%Q -> py_int x <= py_int y.
Proof.
  intros Hxy. unfold py_int.
  destruct (Qle_bool 0 x) eqn:Ex, (Qle_bool 0 y) eqn:Ey.
  - now apply Qfloor_resp_le.
  - apply Qle_bool_iff in Ex.
    assert (Hy : ~ (0 <= y)%Q) by (intros H; apply Qle_bool_iff in H; congruence).
    exfalso. apply Hy. lra.
  - apply Qle_bool_iff in Ey.
    assert (Hx : ~ (0 <= x)%Q) by (intros H; apply Qle_bool_iff in H; congruence).
    transitivity 0.
    + change 0 with (Qceiling 0). apply Qceiling_resp_le. lra.
    + change 0 with (Qfloor 0). now apply Qfloor_resp_le.
  - now apply Qceiling_resp_le.
Qed.

Lemma py_int_negative (x : Q) : (x < 0)%Q -> py_int x <= 0.
Proof.
  intros Hx. unfold py_int. destruct (Qle_bool 0 x) eqn:E.
  - apply Qle_bool_iff in E. lra.
  - change 0 with (Qceiling 0). apply Qceiling_resp_le. lra.
Qed.

(** X19.  A wider cell or a smaller font never gives the word wrapper a
    narrower line: the wrap width is monotone in the available width and
    antitone in the font size. *)
Theorem wrap_width_monotone (max_w max_w' : Q) (s s' : Z) :
  (max_w <= max_w')%Q -> 0 < s' -> s' <= s ->
  exists width width',
    wrap_width max_w s = inr width
    /\ wrap_width max_w' s' = inr width'
    /\ width <= width'.
Proof.
  intros Hw Hs' Hs. unfold wrap_width, truediv.
  rewrite !half_size_nonzero by lia. cbn [bind ret].
  do 2 eexists. split; [reflexivity|]. split; [reflexivity|].
  assert (Hh : (0 < Zq s * (1 # 2))%Q)
    by (pose proof (Zq_pos s ltac:(lia)); lra).
  assert (Hh' : (0 < Zq s' * (1 # 2))%Q)
    by (pose proof (Zq_pos s' ltac:(lia)); lra).
  assert (Hhh : (Zq s' * (1 # 2) <= Zq s * (1 # 2))%Q).
  { assert (Zq s' <= Zq s)%Q by (unfold Zq; now rewrite <- Zle_Qle). lra. }
  set (hs := (Zq s * (1 # 2))%Q) in *. set (hs' := (Zq s' * (1 # 2))%Q) in *.
  assert (Hq : (max_w / hs * hs == max_w)%Q) by (field; lra).
  assert (Hq' : (max_w' / hs' * hs' == max_w')%Q) by (field; lra).
  set (q := (max_w / hs)%Q) in *. set (q' := (max_w' / hs')%Q) in *.
  destruct (Qlt_le_dec max_w' 0) as [Hneg|Hpos].
  - assert (q < 0)%Q by nra. assert (q' < 0)%Q by nra.
    pose proof (py_int_negative q). pose proof (py_int_negative q'). lia.
  - assert (q <= q')%Q.
    { destruct (Qlt_le_dec max_w 0); [assert (q < 0)%Q by nra; assert (0 <= q')%Q by nra; lra|].
      assert (0 <= q)%Q by nra. nra. }
    pose proof (py_int_monotone q q'). lia.
Qed.

Lemma wrap_width_monotone_witness :
  exists width width',
    wrap_width (grid_width / 5 - 2 * 4)%Q 11 = inr width
    /\ wrap_width (grid_width / 4 - 2 * 4)%Q 6 = inr width'
    /\ width <= width'.
Proof.
  apply wrap_width_monotone.
  - vm_compute. discriminate.
  - lia.
  - lia.
Defined.
